(** * riaback: the product query pipeline and the insights aggregator

    A shallow embedding of [lib/repositories/productRepository.ts],
    [lib/services/productInsightsService.ts], [lib/utils/http.ts],
    [lib/services/dummyjsonClient.ts], [lib/services/categoryService.ts],
    [lib/utils/cors.ts], [lib/utils/logger.ts] and the route handlers,
    followed by the properties the specification states about them and by
    further properties of the code.

    Conventions of the embedding.
    - A JavaScript [number] that carries a measured quantity (price,
      rating, stock, page, page size, filter bounds) is a rational [Q];
      [NaN] and the infinities are outside the model.  Lengths and
      occurrence counts are [nat], identifiers and HTTP statuses are [Z].
    - A JavaScript string is a [string] over the ASCII range.
    - An optional field ([x?: T]) is an [option].
    - An [async] function is a function into [Promise], a two-outcome
      result: resolved with a value or rejected with an [HttpError].
      What the network answers is an explicit argument. *)

From Stdlib Require Import List String Ascii Bool Arith ZArith QArith Qround.
From Stdlib Require Import Lqa Lia Permutation Sorted DecimalString.
From Stdlib Require OrderedTypeEx.
Import ListNotations.

Local Open Scope Q_scope.

(** ** JavaScript built-ins used by the sources *)

Module Js.

(** [String.prototype.toLowerCase], on ASCII letters. *)
Definition lower_ascii (c : ascii) : ascii :=
  let n := nat_of_ascii c in
  if ((65 <=? n)%nat && (n <=? 90)%nat)%bool then ascii_of_nat (n + 32) else c.

Fixpoint toLowerCase (s : string) : string :=
  match s with
  | EmptyString => EmptyString
  | String c s' => String (lower_ascii c) (toLowerCase s')
  end.

(** [haystack.includes(needle)]: the needle occurs at some offset. *)
Fixpoint includes (haystack needle : string) : bool :=
  if String.prefix needle haystack then true
  else match haystack with
       | EmptyString => false
       | String _ rest => includes rest needle
       end.

(** Truthiness of a string: only the empty string is falsy. *)
Definition truthy (s : string) : bool :=
  match s with EmptyString => false | String _ _ => true end.

(** Truthiness of an optional string ([undefined], [null] and the empty
    string are falsy). *)
Definition truthy_opt (s : option string) : bool :=
  match s with None => false | Some s' => truthy s' end.

(** [String(n)] for an integer. *)
Definition Number_toString (z : Z) : string :=
  NilZero.string_of_int (Z.to_int z).

(** [Math.max] and [Math.min] on two numbers. *)
Definition Math_max (a b : Q) : Q := if Qle_bool a b then b else a.
Definition Math_min (a b : Q) : Q := if Qle_bool a b then a else b.

(** [Math.ceil]. *)
Definition Math_ceil (q : Q) : Z := Qceiling q.

(** ToIntegerOrInfinity: truncation towards zero. *)
Definition toInteger (q : Q) : Z :=
  if Qle_bool 0 q then Qfloor q else Qceiling q.

(** [Array.prototype.slice(start, end)]: a negative bound counts from the
    end, both bounds are clamped to the length. *)
Definition relativeIndex (len : Z) (q : Q) : Z :=
  let i := toInteger q in
  if (i <? 0)%Z then Z.max (len + i) 0 else Z.min i len.

Definition Array_slice {A : Type} (l : list A) (start stop : Q) : list A :=
  let len := Z.of_nat (List.length l) in
  let k := relativeIndex len start in
  let final := relativeIndex len stop in
  firstn (Z.to_nat (Z.max (final - k) 0)) (skipn (Z.to_nat k) l).

(** [Array.prototype.sort(compareFn)].  The language requires the sort to
    be stable; for a consistent comparator every stable sort returns the
    same array, so a stable insertion sort stands for it.  [x] comes from
    an earlier position than the elements of [l]: it is placed before the
    first [y] with [compareFn x y <= 0]. *)
Fixpoint sort_insert {A : Type} (compareFn : A -> A -> Q) (x : A) (l : list A)
  : list A :=
  match l with
  | [] => [x]
  | y :: l' =>
      if Qle_bool (compareFn x y) 0 then x :: l
      else y :: sort_insert compareFn x l'
  end.

Definition Array_sort {A : Type} (compareFn : A -> A -> Q) (l : list A)
  : list A :=
  fold_right (sort_insert compareFn) [] l.

(** [Map<string, V>]: entries are kept in insertion order; [set] on an
    existing key replaces the value in place. *)
Definition Map (V : Type) : Type := list (string * V).

Fixpoint Map_get {V : Type} (m : Map V) (k : string) : option V :=
  match m with
  | [] => None
  | (k', v) :: m' => if String.eqb k' k then Some v else Map_get m' k
  end.

Fixpoint Map_set {V : Type} (m : Map V) (k : string) (v : V) : Map V :=
  match m with
  | [] => [(k, v)]
  | (k', v') :: m' =>
      if String.eqb k' k then (k', v) :: m' else (k', v') :: Map_set m' k v
  end.

(** [a ?? b]. *)
Definition nullish {V : Type} (a : option V) (b : V) : V :=
  match a with Some v => v | None => b end.

(** White space and line terminators of the ASCII range: TAB, LF, VT, FF,
    CR and SP. *)
Definition isWhiteSpace (c : ascii) : bool :=
  let n := nat_of_ascii c in
  (((9 <=? n)%nat && (n <=? 13)%nat) || (n =? 32)%nat)%bool.

(** [String.prototype.trim]. *)
Fixpoint trimStart (s : string) : string :=
  match s with
  | EmptyString => EmptyString
  | String c s' => if isWhiteSpace c then trimStart s' else s
  end.

Fixpoint trimEnd (s : string) : string :=
  match s with
  | EmptyString => EmptyString
  | String c s' =>
      match trimEnd s' with
      | EmptyString => if isWhiteSpace c then EmptyString else String c EmptyString
      | rest => String c rest
      end
  end.

Definition trim (s : string) : string := trimEnd (trimStart s).

(** [Set<string>]: the members in insertion order, each once. *)
Definition Set_has (s : list string) (x : string) : bool :=
  existsb (String.eqb x) s.

Definition Set_add (s : list string) (x : string) : list string :=
  if Set_has s x then s else s ++ [x].

(** A plain object with string keys is a [Map]; [{...target, ...source}]
    copies the properties of [source] over those of [target]. *)
Definition spread {V : Type} (target source : Map V) : Map V :=
  fold_left (fun m '(k, v) => Map_set m k v) source target.

(** [URLSearchParams.get]: the first value given for the name. *)
Definition searchParams_get (searchParams : list (string * string))
  (name : string) : option string :=
  Map_get searchParams name.

End Js.

(** ** lib/types/product.ts *)

Record ProductDto : Type := mkProductDto {
  dto_id : Z;
  dto_title : string;
  dto_description : string;
  dto_price : Q;
  dto_category : string;
  dto_thumbnail : string;
  dto_rating : Q;
  dto_stock : Q;
  dto_brand : option string;
  dto_images : option (list string);
  dto_discountPercentage : option Q
}.

Record ProductsResponseDto : Type := mkProductsResponseDto {
  products : list ProductDto;
  resp_total : Q;
  skip : Q;
  limit : Q
}.

Record Product : Type := mkProduct {
  id : Z;
  title : string;
  description : string;
  price : Q;
  category : string;
  thumbnail : string;
  rating : Q;
  stock : Q;
  brand : option string;
  images : option (list string);
  discountPercentage : option Q
}.

Record ProductListItem : Type := mkProductListItem {
  li_id : Z;
  li_title : string;
  li_price : Q;
  li_category : string;
  li_thumbnail : string;
  li_rating : Q;
  li_stock : Q
}.

(** The filter object as [applyFilters] destructures it ([maxStock] is
    read by the code although the interface does not declare it). *)
Record ProductFilters : Type := mkProductFilters {
  f_search : option string;
  f_category : option string;
  f_minPrice : option Q;
  f_maxPrice : option Q;
  f_maxStock : option Q
}.

Inductive ProductSort : Type :=
| price_asc | price_desc | rating_asc | rating_desc | title_asc | title_desc.

Record PaginatedResult (T : Type) : Type := mkPaginatedResult {
  items : list T;
  total : nat;
  page : Q;
  pageSize : Q;
  totalPages : Z
}.
Arguments mkPaginatedResult {T}.
Arguments items {T}.
Arguments total {T}.
Arguments page {T}.
Arguments pageSize {T}.
Arguments totalPages {T}.

Record ProductsInsights : Type := mkProductsInsights {
  averagePriceGlobal : Q;
  averageRatingGlobal : Q;
  averageStockGlobal : Q;
  totalProducts : nat;
  totalStock : Q;
  mostCommonCategory : option (string * nat);
  lowStockCount : nat;
  topRatedProducts : list ProductListItem;
  stockByCategory : list (string * Q)
}.

(** ** lib/config.ts *)

Definition DEFAULT_PAGE_SIZE : Q := 20.
Definition MAX_PRODUCTS_PAGE_SIZE : Q := 100.
Definition LOW_STOCK_THRESHOLD : Q := 10.

(** ** lib/utils/http.ts *)

Record HttpError : Type := mkHttpError {
  status : Z;
  message : string
}.

(** The result of an [async] function. *)
Inductive Promise (T : Type) : Type :=
| Resolved (v : T)
| Rejected (e : HttpError).
Arguments Resolved {T}.
Arguments Rejected {T}.

Definition await {T U : Type} (p : Promise T) (k : T -> Promise U) : Promise U :=
  match p with
  | Resolved v => k v
  | Rejected e => Rejected e
  end.

Notation "x <- 'await' p ;; k" := (await p (fun x => k))
  (at level 61, p at next level, right associativity).

(** What one call of [fetch] can do, as seen by [fetchJson]:
    the abort controller fires first ([Aborted], a [DOMException] named
    [AbortError]); [fetch] throws something else ([Threw], with the
    message when it is an [Error]); or a response arrives, with its [ok]
    flag, its status, its body text ([None] when [text()] rejects) and
    the outcome of [json()] (the parsed value, or the message of the
    error it throws). *)
Inductive FetchOutcome (T : Type) : Type :=
| Aborted
| Threw (msg : option string)
| Response (ok : bool) (st : Z) (text : option string) (json : string + T).
Arguments Aborted {T}.
Arguments Threw {T}.
Arguments Response {T}.

Definition fetchJson {T : Type} (net : FetchOutcome T) : Promise T :=
  match net with
  | Response false st text _ =>
      let text := Js.nullish text EmptyString in
      Rejected (mkHttpError st
        (if Js.truthy text then text
         else ("Request failed with status " ++ Js.Number_toString st)%string))
  | Response true _ _ (inr v) => Resolved v
  | Response true _ _ (inl msg) =>
      Rejected (mkHttpError 502
        ("Network error while calling external API: " ++ msg)%string)
  | Aborted =>
      Rejected (mkHttpError 408 "Request to external API timed out"%string)
  | Threw (Some msg) =>
      Rejected (mkHttpError 502
        ("Network error while calling external API: " ++ msg)%string)
  | Threw None =>
      Rejected (mkHttpError 502
        "Unknown network error while calling external API"%string)
  end.

(** ** lib/services/dummyjsonClient.ts *)

(** The URL is built from constants and the arguments; the answer of the
    network to that request is the argument [net]. *)
Definition fetchProductsFromDummyJson
  (net : FetchOutcome ProductsResponseDto) : Promise ProductsResponseDto :=
  fetchJson net.

Definition fetchProductByIdFromDummyJson
  (net : Z -> FetchOutcome ProductDto) (id : Z) : Promise ProductDto :=
  fetchJson (net id).

(** ** lib/repositories/productRepository.ts *)

Section Repository.

(** [String.prototype.localeCompare] is provided by the host (its order
    depends on the locale's collation); it returns a negative number, zero
    or a positive number. *)
Variable localeCompare : string -> string -> Z.

Definition mapDtoToDomain (dto : ProductDto) : Product :=
  {| id := dto_id dto;
     title := dto_title dto;
     description := dto_description dto;
     price := dto_price dto;
     category := dto_category dto;
     thumbnail := dto_thumbnail dto;
     rating := dto_rating dto;
     stock := dto_stock dto;
     brand := dto_brand dto;
     images := dto_images dto;
     discountPercentage := dto_discountPercentage dto |}.

Definition toProductListItem (product : Product) : ProductListItem :=
  {| li_id := id product;
     li_title := title product;
     li_price := price product;
     li_category := category product;
     li_thumbnail := thumbnail product;
     li_rating := rating product;
     li_stock := stock product |}.

(** [a < b] and [a > b] on numbers. *)
Definition Qltb (a b : Q) : bool := negb (Qle_bool b a).

(** The template literal of [applyFilters], lowercased. *)
Definition haystack (product : Product) : string :=
  Js.toLowerCase
    (title product ++ " " ++ description product ++ " " ++ category product)%string.

(** The callback of [products.filter] in [applyFilters]: the five guards
    in source order, each returning [false] early. *)
Definition keeps (filters : ProductFilters) (product : Product) : bool :=
  let search := f_search filters in
  let category' := f_category filters in
  let minPrice := f_minPrice filters in
  let maxPrice := f_maxPrice filters in
  let maxStock := f_maxStock filters in
  if (Js.truthy_opt category'
      && negb (String.eqb (category product) (Js.nullish category' EmptyString)))%bool
  then false
  else if match minPrice with
          | Some m => Qltb (price product) m
          | None => false
          end
  then false
  else if match maxPrice with
          | Some m => Qltb m (price product)
          | None => false
          end
  then false
  else if match maxStock with
          | Some m => Qltb m (stock product)
          | None => false
          end
  then false
  else if Js.truthy_opt search
  then
    if negb (Js.includes (haystack product)
               (Js.toLowerCase (Js.nullish search EmptyString)))
    then false
    else true
  else true.

Definition applyFilters (products : list Product) (filters : ProductFilters)
  : list Product :=
  filter (keeps filters) products.

(** The comparator handed to [sorted.sort] in [applySort]. *)
Definition compareFn (sort : ProductSort) (a b : Product) : Q :=
  match sort with
  | price_asc => price a - price b
  | price_desc => price b - price a
  | rating_asc => rating a - rating b
  | rating_desc => rating b - rating a
  | title_asc => inject_Z (localeCompare (title a) (title b))
  | title_desc => inject_Z (localeCompare (title b) (title a))
  end.

(** The result is a new array in every case: the argument is a value of
    the embedding and is never changed. *)
Definition applySort (products : list Product) (sort : option ProductSort)
  : list Product :=
  let sorted := products in
  match sort with
  | None => sorted
  | Some s => Js.Array_sort (compareFn s) sorted
  end.

Definition getAllProducts (net : FetchOutcome ProductsResponseDto)
  : Promise (list Product) :=
  response <- await fetchProductsFromDummyJson net ;;
  Resolved (map mapDtoToDomain (products response)).

(** [.catch(() => null)] turns every rejection into [null]; the promise
    of [getProductById] therefore always resolves. *)
Definition getProductById (net : Z -> FetchOutcome ProductDto) (id : Z)
  : Promise (option Product) :=
  let dto :=
    match fetchProductByIdFromDummyJson net id with
    | Resolved d => Some d
    | Rejected _ => None
    end in
  match dto with
  | None => Resolved None
  | Some d => Resolved (Some (mapDtoToDomain d))
  end.

Record GetProductsOptions : Type := mkGetProductsOptions {
  filters : option ProductFilters;
  sort : option ProductSort;
  opt_page : option Q;
  opt_pageSize : option Q
}.

(** The filter object [{}]. *)
Definition noFilters : ProductFilters :=
  {| f_search := None; f_category := None; f_minPrice := None;
     f_maxPrice := None; f_maxStock := None |}.

Definition getProductsPaginated (net : FetchOutcome ProductsResponseDto)
  (options : GetProductsOptions) : Promise (PaginatedResult ProductListItem) :=
  let filters' := Js.nullish (filters options) noFilters in
  let sort' := sort options in
  let page' := Js.nullish (opt_page options) 1 in
  let pageSize' := Js.nullish (opt_pageSize options) DEFAULT_PAGE_SIZE in
  allProducts <- await getAllProducts net ;;
  let filtered := applyFilters allProducts filters' in
  let sorted := applySort filtered sort' in
  let safePageSize := if Qltb 0 pageSize' then pageSize' else DEFAULT_PAGE_SIZE in
  let total' := List.length sorted in
  let totalPages' :=
    Z.max 1 (Js.Math_ceil (inject_Z (Z.of_nat total') / safePageSize)) in
  let clampedPage := Js.Math_min (Js.Math_max page' 1) (inject_Z totalPages') in
  let start := (clampedPage - 1) * safePageSize in
  let stop := start + safePageSize in
  let pageItems := map toProductListItem (Js.Array_slice sorted start stop) in
  Resolved {| items := pageItems;
              total := total';
              page := clampedPage;
              pageSize := safePageSize;
              totalPages := totalPages' |}.

Definition getProductsForInsights (net : FetchOutcome ProductsResponseDto)
  (filters : option ProductFilters) : Promise (list Product) :=
  let filters' := Js.nullish filters noFilters in
  allProducts <- await getAllProducts net ;;
  Resolved (applyFilters allProducts filters').

(** ** lib/services/productInsightsService.ts *)

(** [products.reduce((acc, p) => acc + f(p), 0)]. *)
Definition reduce_sum (f : Product -> Q) (products : list Product) : Q :=
  fold_left (fun acc p => acc + f p) products 0.

Definition computeAveragePrice (products : list Product) : Q :=
  if (List.length products =? 0)%nat then 0
  else reduce_sum price products / inject_Z (Z.of_nat (List.length products)).

Definition computeTotalStock (products : list Product) : Q :=
  reduce_sum stock products.

Definition computeAverageRating (products : list Product) : Q :=
  if (List.length products =? 0)%nat then 0
  else reduce_sum rating products / inject_Z (Z.of_nat (List.length products)).

Definition computeAverageStock (products : list Product) : Q :=
  if (List.length products =? 0)%nat then 0
  else reduce_sum stock products / inject_Z (Z.of_nat (List.length products)).

(** The first loop of [computeMostCommonCategory]. *)
Definition countCategories (products : list Product) : Js.Map nat :=
  fold_left
    (fun counts product =>
       Js.Map_set counts (category product)
         (Js.nullish (Js.Map_get counts (category product)) 0%nat + 1)%nat)
    products [].

(** The body of the second loop, on the pair of [maxCategory] and
    [maxCount]. *)
Definition scanStep (acc : option string * nat) (entry : string * nat)
  : option string * nat :=
  let '(maxCategory, maxCount) := acc in
  let '(category', count) := entry in
  if (maxCount <? count)%nat then (Some category', count)
  else (maxCategory, maxCount).

(** The second loop: [maxCategory] and [maxCount] after the entries have
    been visited in insertion order. *)
Definition scanMax (counts : Js.Map nat) : option string * nat :=
  fold_left scanStep counts (None, 0%nat).

Definition computeMostCommonCategory (products : list Product)
  : option (string * nat) :=
  if (List.length products =? 0)%nat then None
  else
    let counts := countCategories products in
    let '(maxCategory, maxCount) := scanMax counts in
    if negb (Js.truthy_opt maxCategory) then None
    else Some (Js.nullish maxCategory EmptyString, maxCount).

Definition computeLowStockCount (products : list Product) (threshold : option Q)
  : nat :=
  let threshold' := Js.nullish threshold LOW_STOCK_THRESHOLD in
  List.length (filter (fun p => Qltb (stock p) threshold') products).

Definition computeTopRatedProducts (products : list Product) (limit : option Q)
  : list ProductListItem :=
  let limit' := Js.nullish limit 5 in
  let sorted := Js.Array_sort (fun a b => rating b - rating a) products in
  map toProductListItem (Js.Array_slice sorted 0 limit').

Definition computeStockByCategory (products : list Product)
  : list (string * Q) :=
  let totals :=
    fold_left
      (fun totals product =>
         Js.Map_set totals (category product)
           (Js.nullish (Js.Map_get totals (category product)) 0 + stock product))
      products [] in
  map (fun '(category', totalStock') => (category', totalStock')) totals.

Definition getProductsInsights (net : FetchOutcome ProductsResponseDto)
  (filters : option ProductFilters) : Promise ProductsInsights :=
  products <- await getProductsForInsights net filters ;;
  Resolved {| averagePriceGlobal := computeAveragePrice products;
              averageRatingGlobal := computeAverageRating products;
              averageStockGlobal := computeAverageStock products;
              totalProducts := List.length products;
              totalStock := computeTotalStock products;
              mostCommonCategory := computeMostCommonCategory products;
              lowStockCount := computeLowStockCount products None;
              topRatedProducts := computeTopRatedProducts products None;
              stockByCategory := computeStockByCategory products |}.

(** ** app/api/products/[id]/route.ts *)

(** [Number.parseInt(idParam, 10)]: an integer, or [NaN]. *)
Inductive ParsedInt : Type := NaN | Int (z : Z).

Inductive RouteBody : Type :=
| ErrorBody (error : string)
| ProductBody (product : Product).

(** The handler's answer: the JSON body and the HTTP status. *)
Definition GET_product (net : Z -> FetchOutcome ProductDto) (idParam : ParsedInt)
  : RouteBody * Z :=
  match idParam with
  | NaN => (ErrorBody "Invalid product id"%string, 400%Z)
  | Int id =>
      if (id <=? 0)%Z then (ErrorBody "Invalid product id"%string, 400%Z)
      else
        match getProductById net id with
        | Resolved None => (ErrorBody "Product not found"%string, 404%Z)
        | Resolved (Some product) => (ProductBody product, 200%Z)
        | Rejected _ =>
            (ErrorBody "Failed to fetch product from external API"%string, 502%Z)
        end
  end.

End Repository.

(** ** lib/services/categoryService.ts *)

Section CategoryService.

Variable localeCompare : string -> string -> Z.

(** The body of the loop of [extractUniqueCategories]; the [typeof] test
    holds for every [Product]. *)
Definition collectCategory (categoriesSet : list string) (product : Product)
  : list string :=
  if Js.truthy (category product) then
    let normalizedCategory := Js.trim (category product) in
    if (0 <? String.length normalizedCategory)%nat
    then Js.Set_add categoriesSet normalizedCategory
    else categoriesSet
  else categoriesSet.

Definition extractUniqueCategories (products : list Product) : list string :=
  if (List.length products =? 0)%nat then []
  else
    let categoriesSet := fold_left collectCategory products [] in
    Js.Array_sort (fun a b => inject_Z (localeCompare a b)) categoriesSet.

(** [category] is [unknown]: [None] stands for a value that is not a
    string. *)
Definition isValidCategory (category : option string) : bool :=
  match category with
  | None => false
  | Some c =>
      ((0 <? String.length (Js.trim c))%nat
       && (String.length (Js.trim c) <=? 100)%nat)%bool
  end.

End CategoryService.

(** ** lib/utils/cors.ts *)

(** The third argument of [NextResponse.json] and of [new NextResponse];
    its [headers] are a plain object of header values. *)
Record ResponseInit : Type := mkResponseInit {
  init_status : option Z;
  init_statusText : option string;
  init_headers : option (Js.Map string)
}.

(** A response as it is constructed: its body ([None] for [null]) and
    its init object. *)
Record NextResponse (T : Type) : Type := mkNextResponse {
  body : option T;
  init : ResponseInit
}.
Arguments mkNextResponse {T}.
Arguments body {T}.
Arguments init {T}.

Section Cors.

(** [process.env.NODE_ENV] and [process.env.ALLOWED_ORIGIN]. *)
Variables (NODE_ENV ALLOWED_ORIGIN : option string).

Definition DEFAULT_ALLOWED_ORIGIN : string :=
  if match NODE_ENV with
     | Some env => String.eqb env "production"
     | None => false
     end
  then "http://tukitickets.duckdns.org:8080"
  else "http://localhost:8080".

Definition CORS_HEADERS : Js.Map string :=
  [ ("Access-Control-Allow-Origin"%string,
     Js.nullish ALLOWED_ORIGIN DEFAULT_ALLOWED_ORIGIN);
    ("Access-Control-Allow-Methods"%string, "GET,OPTIONS"%string);
    ("Access-Control-Allow-Headers"%string,
     "Content-Type, Authorization"%string);
    ("Access-Control-Allow-Credentials"%string, "true"%string) ].

Definition jsonWithCors {T : Type} (data : T) (init : option (Z + ResponseInit))
  : NextResponse T :=
  let baseInit :=
    match init with
    | Some (inl n) =>
        {| init_status := Some n; init_statusText := None;
           init_headers := None |}
    | Some (inr i) => i
    | None =>
        {| init_status := None; init_statusText := None;
           init_headers := None |}
    end in
  {| body := Some data;
     init :=
       {| init_status := init_status baseInit;
          init_statusText := init_statusText baseInit;
          init_headers :=
            Some (Js.spread
                    (Js.spread [] (Js.nullish (init_headers baseInit) []))
                    CORS_HEADERS) |} |}.

Definition optionsPreflight : NextResponse unit :=
  {| body := None;
     init := {| init_status := Some 204%Z; init_statusText := None;
                init_headers := Some CORS_HEADERS |} |}.

End Cors.

(** ** lib/utils/logger.ts *)

Inductive LogLevel : Type := DEBUG | INFO | WARN | ERROR.

(** An [Error] object as the logger reads it. *)
Record JsError : Type := mkJsError {
  error_name : string;
  error_message : string;
  error_stack : option string
}.

(** The methods of [console] the logger writes to. *)
Inductive ConsoleMethod : Type :=
| console_debug | console_log | console_warn | console_error.

Section Logger.

(** The values of a log context are [unknown]. *)
Variable V : Type.

Definition LogContext : Type := Js.Map V.

Record LogEntry : Type := mkLogEntry {
  timestamp : string;
  level : LogLevel;
  entry_message : string;
  context : option LogContext;
  entry_error : option JsError
}.

(** What a call writes: the lines, each with the console method used;
    a line is the entry that [JSON.stringify] serialises. *)
Definition Console : Type := list (ConsoleMethod * LogEntry).

(** [process.env.NODE_ENV], and [new Date().toISOString()] at the call. *)
Variable NODE_ENV : option string.
Variable now : string.

Definition formatLogEntry (level : LogLevel) (message : string)
  (context : option LogContext) (error : option JsError) : LogEntry :=
  {| timestamp := now;
     level := level;
     entry_message := message;
     context :=
       match context with
       | Some c => if (0 <? List.length c)%nat then Some c else None
       | None => None
       end;
     entry_error :=
       match error with
       | Some e =>
           Some {| error_name := error_name e;
                   error_message := error_message e;
                   error_stack := error_stack e |}
       | None => None
       end |}.

Definition logDebug (message : string) (context : option LogContext)
  : Console :=
  if match NODE_ENV with
     | Some env => String.eqb env "development"
     | None => false
     end
  then [(console_debug, formatLogEntry DEBUG message context None)]
  else [].

Definition logInfo (message : string) (context : option LogContext)
  : Console :=
  [(console_log, formatLogEntry INFO message context None)].

Definition logWarn (message : string) (context : option LogContext)
  : Console :=
  [(console_warn, formatLogEntry WARN message context None)].

Definition logError (message : string) (error : option JsError)
  (context : option LogContext) : Console :=
  [(console_error, formatLogEntry ERROR message context error)].

Record Logger : Type := mkLogger {
  debug : string -> option LogContext -> Console;
  info : string -> option LogContext -> Console;
  warn : string -> option LogContext -> Console;
  error : string -> option JsError -> option LogContext -> Console
}.

(** [{ ...defaultContext, ...context }]; spreading [undefined] adds
    nothing. *)
Definition mergeContext (defaultContext : LogContext)
  (context : option LogContext) : LogContext :=
  Js.spread (Js.spread [] defaultContext) (Js.nullish context []).

Definition createLogger (defaultContext : LogContext) : Logger :=
  {| debug := fun message context =>
       logDebug message (Some (mergeContext defaultContext context));
     info := fun message context =>
       logInfo message (Some (mergeContext defaultContext context));
     warn := fun message context =>
       logWarn message (Some (mergeContext defaultContext context));
     error := fun message error context =>
       logError message error (Some (mergeContext defaultContext context)) |}.

End Logger.

(** ** app/api/products/route.ts, app/api/products/insights/route.ts and
    app/api/categories/route.ts *)

(** The JSON body of a route: the payload, or [{ error }]. *)
Inductive RouteJson (T : Type) : Type :=
| Payload (payload : T)
| ErrorJson (error : string).
Arguments Payload {T}.
Arguments ErrorJson {T}.

Record Pagination : Type := mkPagination {
  pagination_page : Q;
  pagination_pageSize : Q;
  pagination_total : nat;
  pagination_totalPages : Z
}.

Record ProductsJson : Type := mkProductsJson {
  json_items : list ProductListItem;
  json_total : nat;
  json_page : Q;
  json_pageSize : Q;
  json_pagination : Pagination;
  json_appliedFilters : ProductFilters;
  json_sort : option string
}.

Section Routes.

Variable localeCompare : string -> string -> Z.

(** [Number(value)] and [Number.parseInt(value, 10)] are provided by the
    host; [None] and [NaN] stand for the result [NaN]. *)
Variable Number : string -> option Q.
Variable parseInt10 : string -> ParsedInt.

Variables (NODE_ENV ALLOWED_ORIGIN : option string).

Definition parseOptionalNumber (value : option string) : option Q :=
  if negb (Js.truthy_opt value) then None
  else Number (Js.nullish value EmptyString).

Definition parsePositiveInt (value : option string) : option Q :=
  if negb (Js.truthy_opt value) then None
  else
    match parseInt10 (Js.nullish value EmptyString) with
    | NaN => None
    | Int parsed => if (parsed <=? 0)%Z then None else Some (inject_Z parsed)
    end.

(** The criteria object both collection routes build from the query. *)
Definition filtersOfQuery (searchParams : list (string * string))
  : ProductFilters :=
  {| f_search :=
       match Js.searchParams_get searchParams "search" with
       | Some v => Some v
       | None => Js.searchParams_get searchParams "q"
       end;
     f_category := Js.searchParams_get searchParams "category";
     f_minPrice :=
       parseOptionalNumber (Js.searchParams_get searchParams "minPrice");
     f_maxPrice :=
       parseOptionalNumber (Js.searchParams_get searchParams "maxPrice");
     f_maxStock :=
       parseOptionalNumber (Js.searchParams_get searchParams "maxStock") |}.

(** The [sort] parameter is cast, not checked.  A string other than the
    six sort orders is falsy (empty) or reaches the [default] branch of
    the comparator, which returns 0 for every pair, so that the stable sort
    returns the records in their order: in both cases the order of the
    records is the one obtained without a sort. *)
Definition asProductSort (sort : option string) : option ProductSort :=
  match sort with
  | None => None
  | Some v =>
      if String.eqb v "price_asc" then Some price_asc
      else if String.eqb v "price_desc" then Some price_desc
      else if String.eqb v "rating_asc" then Some rating_asc
      else if String.eqb v "rating_desc" then Some rating_desc
      else if String.eqb v "title_asc" then Some title_asc
      else if String.eqb v "title_desc" then Some title_desc
      else None
  end.

(** The handlers' log lines and timings are not part of their answer. *)
Definition GET_products (net : FetchOutcome ProductsResponseDto)
  (searchParams : list (string * string))
  : NextResponse (RouteJson ProductsJson) :=
  let filters := filtersOfQuery searchParams in
  let sort := Js.searchParams_get searchParams "sort" in
  let page' :=
    Js.nullish (parsePositiveInt (Js.searchParams_get searchParams "page")) 1 in
  let pageSize' :=
    parsePositiveInt (Js.searchParams_get searchParams "pageSize") in
  match getProductsPaginated localeCompare net
          {| filters := Some filters; sort := asProductSort sort;
             opt_page := Some page'; opt_pageSize := pageSize' |} with
  | Resolved result =>
      jsonWithCors NODE_ENV ALLOWED_ORIGIN
        (Payload
           {| json_items := items result;
              json_total := total result;
              json_page := page result;
              json_pageSize := pageSize result;
              json_pagination :=
                {| pagination_page := page result;
                   pagination_pageSize := pageSize result;
                   pagination_total := total result;
                   pagination_totalPages := totalPages result |};
              json_appliedFilters := filters;
              json_sort := sort |})
        None
  | Rejected _ =>
      jsonWithCors NODE_ENV ALLOWED_ORIGIN
        (ErrorJson "Failed to fetch products from external API")
        (Some (inl 502%Z))
  end.

Definition GET_insights (net : FetchOutcome ProductsResponseDto)
  (searchParams : list (string * string))
  : NextResponse (RouteJson ProductsInsights) :=
  let filters := filtersOfQuery searchParams in
  match getProductsInsights net (Some filters) with
  | Resolved insights =>
      jsonWithCors NODE_ENV ALLOWED_ORIGIN (Payload insights) None
  | Rejected _ =>
      jsonWithCors NODE_ENV ALLOWED_ORIGIN
        (ErrorJson "Failed to compute product insights")
        (Some (inl 502%Z))
  end.

Definition GET_categories (net : FetchOutcome ProductsResponseDto)
  : NextResponse (RouteJson (list string)) :=
  match getAllProducts net with
  | Resolved allProducts =>
      let categories := extractUniqueCategories localeCompare allProducts in
      jsonWithCors NODE_ENV ALLOWED_ORIGIN (Payload categories) None
  | Rejected _ =>
      jsonWithCors NODE_ENV ALLOWED_ORIGIN
        (ErrorJson "Failed to fetch categories")
        (Some (inl 502%Z))
  end.

Definition OPTIONS : NextResponse unit :=
  optionsPreflight NODE_ENV ALLOWED_ORIGIN.

End Routes.

(** ** Vocabulary of the specification *)

(** [needle] occurs in [hay] as a contiguous substring. *)
Definition Substring (needle hay : string) : Prop :=
  exists pre post, hay = (pre ++ needle ++ post)%string.

(** [Selects P l l']: [l'] is the subsequence of [l], in the order of [l],
    made of exactly the elements that satisfy [P]. *)
Inductive Selects {A : Type} (P : A -> Prop) : list A -> list A -> Prop :=
| Selects_nil : Selects P [] []
| Selects_keep x l l' : P x -> Selects P l l' -> Selects P (x :: l) (x :: l')
| Selects_drop x l l' : ~ P x -> Selects P l l' -> Selects P (x :: l) l'.

(** The text a search is matched against: title, description and
    category joined by single spaces. *)
Definition searchText (p : Product) : string :=
  (title p ++ " " ++ description p ++ " " ++ category p)%string.

(** A record satisfies a criteria set as the specification words it:
    every criterion that is present must hold. *)
Definition satisfies_spec (F : ProductFilters) (p : Product) : Prop :=
  (forall c, f_category F = Some c -> category p = c) /\
  (forall m, f_minPrice F = Some m -> m <= price p) /\
  (forall m, f_maxPrice F = Some m -> price p <= m) /\
  (forall m, f_maxStock F = Some m -> stock p <= m) /\
  (forall s, f_search F = Some s ->
     Substring (Js.toLowerCase s) (Js.toLowerCase (searchText p))).

(** The same, with a category criterion constraining only when it is a
    non-empty string. *)
Definition satisfies (F : ProductFilters) (p : Product) : Prop :=
  (forall c, f_category F = Some c -> c <> EmptyString -> category p = c) /\
  (forall m, f_minPrice F = Some m -> m <= price p) /\
  (forall m, f_maxPrice F = Some m -> price p <= m) /\
  (forall m, f_maxStock F = Some m -> stock p <= m) /\
  (forall s, f_search F = Some s ->
     Substring (Js.toLowerCase s) (Js.toLowerCase (searchText p))).

(** A criteria set whose only field is an empty category. *)
Definition emptyCategoryFilter : ProductFilters :=
  {| f_search := None; f_category := Some EmptyString; f_minPrice := None;
     f_maxPrice := None; f_maxStock := None |}.

(** Under the comparator [compareFn], [a] may stay before [b]. *)
Definition before {A : Type} (compareFn : A -> A -> Q) (a b : A) : Prop :=
  compareFn a b <= 0.

(** The order a sort key and direction ask for, and the records that tie
    with [x] under it. *)
Definition ordered (localeCompare : string -> string -> Z) (s : ProductSort)
  (a b : Product) : Prop :=
  match s with
  | price_asc => price a <= price b
  | price_desc => price b <= price a
  | rating_asc => rating a <= rating b
  | rating_desc => rating b <= rating a
  | title_asc => (localeCompare (title a) (title b) <= 0)%Z
  | title_desc => (localeCompare (title b) (title a) <= 0)%Z
  end.

Definition tied (localeCompare : string -> string -> Z) (s : ProductSort)
  (x y : Product) : bool :=
  match s with
  | price_asc | price_desc => Qeq_bool (price x) (price y)
  | rating_asc | rating_desc => Qeq_bool (rating x) (rating y)
  | title_asc | title_desc => (localeCompare (title x) (title y) =? 0)%Z
  end.

(** Number of records of a category, and the position at which a
    category is first seen. *)
Definition occurrences (c : string) (l : list Product) : nat :=
  List.length (filter (fun p => String.eqb (category p) c) l).

Fixpoint firstSeen (c : string) (l : list Product) : nat :=
  match l with
  | [] => 0
  | p :: l' => if String.eqb (category p) c then 0 else S (firstSeen c l')
  end.

(** One step of the counting loop: [counts.set(c, (counts.get(c) ?? 0) + 1)]. *)
Definition bump (counts : Js.Map nat) (c : string) : Js.Map nat :=
  Js.Map_set counts c (Js.nullish (Js.Map_get counts c) 0%nat + 1)%nat.

(** After the loop, the map holds the number of occurrences of each
    category seen, and its keys are in first-seen order. *)
Definition counted (l : list Product) (m : Js.Map nat) : Prop :=
  (forall c, Js.Map_get m c
             = if (occurrences c l =? 0)%nat then None
               else Some (occurrences c l)) /\
  StronglySorted lt (map (fun k => firstSeen k l) (map fst m)).

(** A collation used to instantiate [localeCompare]: code-unit order of
    the lowercased strings. *)
Definition codeUnitCompare (a b : string) : Z :=
  match String.compare a b with
  | Lt => (-1)%Z
  | Eq => 0%Z
  | Gt => 1%Z
  end.

Definition caseInsensitiveCompare (a b : string) : Z :=
  codeUnitCompare (Js.toLowerCase a) (Js.toLowerCase b).

(** The catalog of the repository's tests. *)
Definition sampleProduct (i : Z) (t d : string) (p : Q) (c : string) (r s : Q)
  : Product :=
  {| id := i; title := t; description := d; price := p; category := c;
     thumbnail := "https://example.com/thumb.jpg"; rating := r; stock := s;
     brand := None; images := None; discountPercentage := None |}.

Definition iphone : Product :=
  sampleProduct 1 "iPhone 15" "Latest iPhone" 999 "smartphones" (48 # 10) 50.
Definition galaxy : Product :=
  sampleProduct 2 "Samsung Galaxy" "Android phone" 799 "smartphones" (45 # 10) 30.
Definition macbook : Product :=
  sampleProduct 3 "MacBook Pro" "Apple laptop" 1999 "laptops" (49 # 10) 5.
Definition dell : Product :=
  sampleProduct 4 "Dell XPS" "Windows laptop" 1299 "laptops" (43 # 10) 20.

Definition mockProducts : list Product := [iphone; galaxy; macbook; dell].

Definition toDto (p : Product) : ProductDto :=
  {| dto_id := id p; dto_title := title p; dto_description := description p;
     dto_price := price p; dto_category := category p;
     dto_thumbnail := thumbnail p; dto_rating := rating p;
     dto_stock := stock p; dto_brand := brand p; dto_images := images p;
     dto_discountPercentage := discountPercentage p |}.

(** A record without a category, and network behaviours for the
    single-record fetch: a timeout, and the catalog reporting the record
    absent. *)
Definition unlabelled : Product :=
  sampleProduct 5 "Loose item" "Not categorised" 10 EmptyString 3 1.

Definition timesOut : Z -> FetchOutcome ProductDto := fun _ => Aborted.

Definition reportsAbsent : Z -> FetchOutcome ProductDto :=
  fun _ => Response false 404 (Some "Product not found"%string)
             (inl "not a product"%string).

(** A successful answer of the network: status [st], parsed body [resp]. *)
Definition answers {T : Type} (st : Z) (text : option string) (resp : T)
  : FetchOutcome T :=
  Response true st text (inr resp).

(** The network answering a listing request with the given records. *)
Definition serves (records : list ProductDto)
  : FetchOutcome ProductsResponseDto :=
  Response true 200 None
    (inr {| products := records;
            resp_total := inject_Z (Z.of_nat (List.length records));
            skip := 0; limit := MAX_PRODUCTS_PAGE_SIZE |}).

(** A criteria set keeping the smartphones of at least 800. *)
Definition smartphonesFrom800 : ProductFilters :=
  {| f_search := None; f_category := Some "smartphones"%string;
     f_minPrice := Some 800; f_maxPrice := None; f_maxStock := None |}.

(** The listing at page [k] with [n] records per page, and what a listing
    promise holds: its items and its page count (none when rejected). *)
Definition listingPage (localeCompare : string -> string -> Z)
  (net : FetchOutcome ProductsResponseDto) (F : option ProductFilters)
  (s : option ProductSort) (n k : nat)
  : Promise (PaginatedResult ProductListItem) :=
  getProductsPaginated localeCompare net
    {| filters := F; sort := s;
       opt_page := Some (inject_Z (Z.of_nat k));
       opt_pageSize := Some (inject_Z (Z.of_nat n)) |}.

Definition itemsOf {T : Type} (p : Promise (PaginatedResult T)) : list T :=
  match p with
  | Resolved r => items r
  | Rejected _ => []
  end.

Definition pagesOf {T : Type} (p : Promise (PaginatedResult T)) : nat :=
  match p with
  | Resolved r => Z.to_nat (totalPages r)
  | Rejected _ => 0
  end.

(** The sorted filtered records every page of a listing is cut from. *)
Definition sortedRecords (localeCompare : string -> string -> Z)
  (resp : ProductsResponseDto) (F : option ProductFilters)
  (s : option ProductSort) : list Product :=
  applySort localeCompare
    (applyFilters (map mapDtoToDomain (products resp))
       (Js.nullish F noFilters)) s.

(** The sum of a list of numbers. *)
Definition Qsum (l : list Q) : Q := fold_right Qplus 0 l.


(** The records of one category. *)
Definition ofCategory (c : string) (l : list Product) : list Product :=
  filter (fun p => String.eqb (category p) c) l.

(** After the loop of [computeStockByCategory], the map holds the stock
    of each category seen, and its keys are in first-seen order. *)
Definition totalled (l : list Product) (m : Js.Map Q) : Prop :=
  (forall c, Js.Map_get m c
             = if (occurrences c l =? 0)%nat then None
               else Some (computeTotalStock (ofCategory c l))) /\
  StronglySorted lt (map (fun k => firstSeen k l) (map fst m)) /\
  Qsum (map snd m) == computeTotalStock l.

(** The headers a response is constructed with. *)
Definition headersOf {T : Type} (r : NextResponse T) : Js.Map string :=
  Js.nullish (init_headers (init r)) [].



(** * Properties *)

(** ** Strings *)

Lemma prefix_iff (n h : string) :
  String.prefix n h = true <-> exists post, h = (n ++ post)%string.
Proof.
  revert h; induction n as [|a n IH]; intros h; simpl.
  - split; [intros _; exists h; reflexivity | intros _; destruct h; reflexivity].
  - destruct h as [|b h]; simpl.
    + split; [discriminate | intros [post H]; discriminate].
    + destruct (Ascii.ascii_dec a b) as [->|Hab].
      * rewrite IH. split; intros [post H]; exists post.
        -- now rewrite H.
        -- now inversion H.
      * split; [discriminate | intros [post H]; inversion H; subst; now elim Hab].
Qed.

Lemma includes_iff (h n : string) :
  Js.includes h n = true <-> Substring n h.
Proof.
  unfold Substring. induction h as [|b h IH]; cbn [Js.includes].
  - destruct (String.prefix n EmptyString) eqn:E.
    + split; [intros _ | reflexivity].
      apply prefix_iff in E. destruct E as [post E].
      exists EmptyString, post. exact E.
    + split; [discriminate|]. intros [pre [post H]].
      destruct pre; simpl in H; [|discriminate].
      assert (String.prefix n EmptyString = true)
        by (apply prefix_iff; exists post; exact H).
      congruence.
  - destruct (String.prefix n (String b h)) eqn:E.
    + split; [intros _ | reflexivity].
      apply prefix_iff in E. destruct E as [post E].
      exists EmptyString, post. exact E.
    + rewrite IH. split.
      * intros [pre [post H]]. exists (String b pre), post. simpl. now rewrite H.
      * intros [pre [post H]]. destruct pre as [|c pre]; simpl in H.
        -- assert (String.prefix n (String b h) = true)
             by (apply prefix_iff; exists post; exact H).
           congruence.
        -- inversion H. exists pre, post. reflexivity.
Qed.

Lemma includes_empty (h : string) : Js.includes h EmptyString = true.
Proof. destruct h; reflexivity. Qed.

(** ** Comparisons on numbers *)

Lemma Qltb_lt (a b : Q) : Qltb a b = true <-> a < b.
Proof.
  unfold Qltb. rewrite negb_true_iff. split.
  - intros H. apply Qnot_le_lt. intros L. apply Qle_bool_iff in L. congruence.
  - intros H. destruct (Qle_bool b a) eqn:E; [|reflexivity].
    apply Qle_bool_iff in E. lra.
Qed.

Lemma Qltb_ge (a b : Q) : Qltb a b = false <-> b <= a.
Proof.
  unfold Qltb. rewrite negb_false_iff. apply Qle_bool_iff.
Qed.

Lemma Qle_bool_false (a b : Q) : Qle_bool a b = false <-> b < a.
Proof.
  rewrite <- Qltb_lt. unfold Qltb. now rewrite negb_true_iff.
Qed.

Lemma Math_max_spec (a b : Q) :
  a <= Js.Math_max a b /\ b <= Js.Math_max a b /\
  (Js.Math_max a b = a \/ Js.Math_max a b = b).
Proof.
  unfold Js.Math_max. destruct (Qle_bool a b) eqn:E.
  - apply Qle_bool_iff in E. repeat split; auto; lra.
  - apply Qle_bool_false in E. repeat split; auto; lra.
Qed.

Lemma Math_min_spec (a b : Q) :
  Js.Math_min a b <= a /\ Js.Math_min a b <= b /\
  (Js.Math_min a b = a \/ Js.Math_min a b = b).
Proof.
  unfold Js.Math_min. destruct (Qle_bool a b) eqn:E.
  - apply Qle_bool_iff in E. repeat split; auto; lra.
  - apply Qle_bool_false in E. repeat split; auto; lra.
Qed.

(** ** applyFilters *)

Lemma Substring_empty (h : string) : Substring EmptyString h.
Proof. exists EmptyString, h. reflexivity. Qed.

Lemma category_guard (c : option string) (p : Product) :
  (Js.truthy_opt c
   && negb (String.eqb (category p) (Js.nullish c EmptyString)))%bool = false
  <-> (forall c0, c = Some c0 -> c0 <> EmptyString -> category p = c0).
Proof.
  destruct c as [[|a c]|]; simpl.
  - split; [|reflexivity]. intros _ c0 E N. inversion E. congruence.
  - rewrite negb_false_iff, String.eqb_eq. split.
    + intros H c0 E _. inversion E. now subst.
    + intros H. apply H; [reflexivity | discriminate].
  - split; [|reflexivity]. intros _ c0 E. discriminate.
Qed.

Lemma lower_bound_guard (bound : option Q) (x : Q) :
  match bound with Some m => Qltb x m | None => false end = false
  <-> (forall m, bound = Some m -> m <= x).
Proof.
  destruct bound as [m|].
  - rewrite Qltb_ge. split.
    + intros H m0 E. inversion E. now subst.
    + intros H. now apply H.
  - split; [|reflexivity]. intros _ m E. discriminate.
Qed.

Lemma upper_bound_guard (bound : option Q) (x : Q) :
  match bound with Some m => Qltb m x | None => false end = false
  <-> (forall m, bound = Some m -> x <= m).
Proof.
  destruct bound as [m|].
  - rewrite Qltb_ge. split.
    + intros H m0 E. inversion E. now subst.
    + intros H. now apply H.
  - split; [|reflexivity]. intros _ m E. discriminate.
Qed.

Lemma search_guard (s : option string) (p : Product) :
  (if Js.truthy_opt s
   then if negb (Js.includes (haystack p)
                   (Js.toLowerCase (Js.nullish s EmptyString)))
        then false else true
   else true) = true
  <-> (forall s0, s = Some s0 ->
         Substring (Js.toLowerCase s0) (Js.toLowerCase (searchText p))).
Proof.
  change (haystack p) with (Js.toLowerCase (searchText p)).
  destruct s as [[|a s]|]; cbn [Js.truthy_opt Js.truthy Js.nullish].
  - split; [|reflexivity]. intros _ s0 E. inversion E.
    apply Substring_empty.
  - destruct (Js.includes _ _) eqn:E; cbn [negb].
    + split; [|reflexivity]. intros _ s0 E0. inversion E0.
      now apply includes_iff.
    + split; [discriminate|]. intros H.
      specialize (H _ eq_refl). apply includes_iff in H. congruence.
  - split; [|reflexivity]. intros _ s0 E. discriminate.
Qed.

(** The callback of [applyFilters] decides the amended predicate. *)
Lemma keeps_iff (F : ProductFilters) (p : Product) :
  keeps F p = true <-> satisfies F p.
Proof.
  unfold keeps, satisfies.
  rewrite <- category_guard, <- lower_bound_guard, <- !upper_bound_guard,
    <- search_guard.
  destruct (Js.truthy_opt (f_category F) && _)%bool;
    [split; [discriminate | intros [H _]; discriminate]|].
  destruct (match f_minPrice F with Some _ => _ | None => _ end);
    [split; [discriminate | intros [_ [H _]]; discriminate]|].
  destruct (match f_maxPrice F with Some _ => _ | None => _ end);
    [split; [discriminate | intros [_ [_ [H _]]]; discriminate]|].
  destruct (match f_maxStock F with Some _ => _ | None => _ end);
    [split; [discriminate | intros [_ [_ [_ [H _]]]]; discriminate]|].
  tauto.
Qed.

Lemma filter_Selects {A : Type} (P : A -> Prop) (f : A -> bool) :
  (forall x, f x = true <-> P x) ->
  forall l, Selects P l (filter f l).
Proof.
  intros Hf l. induction l as [|x l IH]; simpl.
  - constructor.
  - destruct (f x) eqn:E.
    + apply Selects_keep; [now apply Hf | exact IH].
    + apply Selects_drop; [|exact IH].
      intros HP. apply Hf in HP. congruence.
Qed.

(** [Selects P l] determines its result. *)
Lemma Selects_functional {A : Type} (P : A -> Prop) (l l1 l2 : list A) :
  Selects P l l1 -> Selects P l l2 -> l1 = l2.
Proof.
  intros H1. revert l2.
  induction H1; intros l2 H2; inversion H2; subst;
    try reflexivity; try contradiction.
  - f_equal. now apply IHSelects.
  - now apply IHSelects.
Qed.

Lemma Selects_In {A : Type} (P : A -> Prop) (l l' : list A) :
  Selects P l l' -> forall x, In x l' <-> In x l /\ P x.
Proof.
  induction 1; intros y; simpl.
  - tauto.
  - rewrite IHSelects. split.
    + intros [->|[Hi Hp]]; auto.
    + intros [[->|Hi] Hp]; auto.
  - rewrite IHSelects. split.
    + intros [Hi Hp]; auto.
    + intros [[->|Hi] Hp]; [contradiction | auto].
Qed.

Lemma satisfies_spec_iff (F : ProductFilters) (p : Product) :
  f_category F <> Some EmptyString ->
  (satisfies_spec F p <-> satisfies F p).
Proof.
  intros N. unfold satisfies_spec, satisfies. split.
  - intros [H R]. split; [|exact R]. intros c E _. now apply H.
  - intros [H R]. split; [|exact R]. intros c E. apply H; [exact E|].
    intros ->. contradiction.
Qed.

(** C3, as stated, fails: with the category criterion present and equal to
    the empty string, [applyFilters] keeps a record whose category is
    "laptops", which exact string equality with the criterion excludes. *)
Lemma applyFilters_exact_category_counterexample :
  ~ Selects (satisfies_spec emptyCategoryFilter) [macbook]
      (applyFilters [macbook] emptyCategoryFilter).
Proof.
  change (applyFilters [macbook] emptyCategoryFilter) with [macbook].
  intros H. inversion H as [|x l l' HP HS|x l l' HP HS]; subst.
  - destruct HP as [Hc _]. specialize (Hc _ eq_refl). discriminate.
  - inversion HS.
Qed.

(** C3 (amended): for every record list and criteria set, [applyFilters]
    returns the subsequence of the input, in input order, made of exactly
    the records that satisfy every criterion present: category by exact
    string equality when the criterion is a non-empty string, price at
    least minPrice, price at most maxPrice, stock at most maxStock, and the
    lowercased search text a substring of the lowercased space-joined
    title, description and category.  Absent criteria, and an empty
    category criterion, exclude no record. *)
Theorem applyFilters_selects (l : list Product) (F : ProductFilters) :
  Selects (satisfies F) l (applyFilters l F).
Proof.
  unfold applyFilters. apply filter_Selects. intros p. apply keeps_iff.
Qed.

Lemma filter_all {A : Type} (f : A -> bool) (l : list A) :
  (forall x, f x = true) -> filter f l = l.
Proof.
  intros H. induction l as [|x l IH]; simpl; [reflexivity|].
  now rewrite H, IH.
Qed.

(** C10: an empty-string category or search criterion is treated as
    absent.  Replacing it by an absent criterion never changes the result
    of [applyFilters], whatever the other criteria are, and with nothing
    else specified every record is kept, whatever its own category. *)
Theorem applyFilters_empty_string_is_absent
  (l : list Product) (s c : option string) (mn mx ms : option Q) :
  applyFilters l (mkProductFilters s (Some EmptyString) mn mx ms)
    = applyFilters l (mkProductFilters s None mn mx ms) /\
  applyFilters l (mkProductFilters (Some EmptyString) c mn mx ms)
    = applyFilters l (mkProductFilters None c mn mx ms) /\
  applyFilters l
    (mkProductFilters (Some EmptyString) (Some EmptyString) None None None)
    = l.
Proof.
  unfold applyFilters. split; [|split].
  - apply filter_ext. intros p. reflexivity.
  - apply filter_ext. intros p. reflexivity.
  - apply filter_all. intros p. reflexivity.
Qed.

(** ** Array.prototype.sort *)

Section StableSort.

Context {A : Type}.
Variable compareFn : A -> A -> Q.

Lemma sort_insert_perm (x : A) (l : list A) :
  Permutation (x :: l) (Js.sort_insert compareFn x l).
Proof.
  induction l as [|y l IH]; simpl; [reflexivity|].
  destruct (Qle_bool (compareFn x y) 0); [reflexivity|].
  rewrite perm_swap. now apply perm_skip.
Qed.

Lemma Array_sort_perm (l : list A) :
  Permutation l (Js.Array_sort compareFn l).
Proof.
  induction l as [|x l IH]; simpl; [reflexivity|].
  rewrite <- sort_insert_perm. now apply perm_skip.
Qed.

Lemma Array_sort_length (l : list A) :
  List.length (Js.Array_sort compareFn l) = List.length l.
Proof. symmetry. apply Permutation_length, Array_sort_perm. Qed.

(** A predicate whose members may all stay before one another (a class
    of ties) is left in input order by an insertion. *)
Lemma sort_insert_filter (P : A -> bool) (x : A) (l : list A) :
  (forall a b, P a = true -> P b = true -> before compareFn a b) ->
  filter P (Js.sort_insert compareFn x l) = filter P (x :: l).
Proof.
  intros HP. induction l as [|y l IH]; [reflexivity|].
  cbn [Js.sort_insert].
  destruct (Qle_bool (compareFn x y) 0) eqn:E; [reflexivity|].
  cbn [filter] in *. rewrite IH.
  destruct (P x) eqn:Ex, (P y) eqn:Ey; try reflexivity.
  specialize (HP x y Ex Ey). apply Qle_bool_iff in HP. congruence.
Qed.

Lemma Array_sort_stable (P : A -> bool) (l : list A) :
  (forall a b, P a = true -> P b = true -> before compareFn a b) ->
  filter P (Js.Array_sort compareFn l) = filter P l.
Proof.
  intros HP. induction l as [|x l IH]; [reflexivity|].
  cbn [Js.Array_sort fold_right].
  rewrite sort_insert_filter by exact HP.
  cbn [filter]. fold (Js.Array_sort compareFn l). now rewrite IH.
Qed.

(** The comparator is consistent: two elements are always comparable one
    way or the other, and [before] is transitive. *)
Hypothesis before_total :
  forall a b, before compareFn a b \/ before compareFn b a.
Hypothesis before_trans :
  forall a b c, before compareFn a b -> before compareFn b c ->
                before compareFn a c.

Lemma sort_insert_sorted (x : A) (l : list A) :
  StronglySorted (before compareFn) l ->
  StronglySorted (before compareFn) (Js.sort_insert compareFn x l).
Proof.
  induction 1 as [|y l Hs IH Hall]; simpl.
  - repeat constructor.
  - destruct (Qle_bool (compareFn x y) 0) eqn:E.
    + apply Qle_bool_iff in E. constructor.
      * now constructor.
      * constructor; [exact E|].
        eapply Forall_impl; [|exact Hall].
        intros z Hz. now apply before_trans with y.
    + assert (Hyx : before compareFn y x).
      { destruct (before_total x y) as [H|H]; [|exact H].
        apply Qle_bool_iff in H. congruence. }
      constructor; [exact IH|].
      apply (Permutation_Forall (sort_insert_perm x l)).
      now constructor.
Qed.

Lemma Array_sort_sorted (l : list A) :
  StronglySorted (before compareFn) (Js.Array_sort compareFn l).
Proof.
  induction l as [|x l IH]; simpl.
  - constructor.
  - now apply sort_insert_sorted.
Qed.

End StableSort.

Lemma StronglySorted_impl {A : Type} (R R' : A -> A -> Prop) (l : list A) :
  (forall a b, R a b -> R' a b) ->
  StronglySorted R l -> StronglySorted R' l.
Proof.
  intros HR. induction 1 as [|x l Hs IH Hall]; constructor.
  - exact IH.
  - eapply Forall_impl; [|exact Hall]. intros y. apply HR.
Qed.

(** ** The sample collation is a consistent comparator *)

Lemma codeUnitCompare_antisym (a b : string) :
  Z.sgn (codeUnitCompare b a) = (- Z.sgn (codeUnitCompare a b))%Z.
Proof.
  unfold codeUnitCompare. rewrite (String.compare_antisym a b).
  destruct (String.compare b a); reflexivity.
Qed.

Lemma codeUnitCompare_le (a b : string) :
  (codeUnitCompare a b <= 0)%Z <-> a = b \/ String.compare a b = Lt.
Proof.
  unfold codeUnitCompare. destruct (String.compare a b) eqn:E.
  - apply String.compare_eq_iff in E. split; [auto | lia].
  - split; [auto | lia].
  - split; [lia|]. intros [->|H]; [|discriminate].
    assert (H : String.compare b b = Eq)
      by (apply OrderedTypeEx.String_as_OT.cmp_eq; reflexivity).
    congruence.
Qed.

Lemma codeUnitCompare_trans (a b c : string) :
  (codeUnitCompare a b <= 0)%Z -> (codeUnitCompare b c <= 0)%Z ->
  (codeUnitCompare a c <= 0)%Z.
Proof.
  rewrite !codeUnitCompare_le.
  intros [->|Hab] [->|Hbc]; auto.
  right. apply OrderedTypeEx.String_as_OT.cmp_lt.
  apply OrderedTypeEx.String_as_OT.lt_trans with b;
    now apply OrderedTypeEx.String_as_OT.cmp_lt.
Qed.

Lemma caseInsensitiveCompare_antisym (a b : string) :
  Z.sgn (caseInsensitiveCompare b a) = (- Z.sgn (caseInsensitiveCompare a b))%Z.
Proof. apply codeUnitCompare_antisym. Qed.

Lemma caseInsensitiveCompare_trans (a b c : string) :
  (caseInsensitiveCompare a b <= 0)%Z -> (caseInsensitiveCompare b c <= 0)%Z ->
  (caseInsensitiveCompare a c <= 0)%Z.
Proof. apply codeUnitCompare_trans. Qed.

(** ** applySort *)

Section Sorting.

Variable localeCompare : string -> string -> Z.

(** What the language asks of a comparator for the order of the result
    to be defined: exchanging the arguments negates the sign, and "not
    after" is transitive. *)
Hypothesis localeCompare_antisym :
  forall a b, Z.sgn (localeCompare b a) = (- Z.sgn (localeCompare a b))%Z.
Hypothesis localeCompare_trans :
  forall a b c, (localeCompare a b <= 0)%Z -> (localeCompare b c <= 0)%Z ->
                (localeCompare a c <= 0)%Z.

Lemma inject_Z_nonpos (z : Z) : inject_Z z <= 0 <-> (z <= 0)%Z.
Proof. change 0 with (inject_Z 0). rewrite <- Zle_Qle. reflexivity. Qed.

Lemma before_ordered (s : ProductSort) (a b : Product) :
  before (compareFn localeCompare s) a b <-> ordered localeCompare s a b.
Proof.
  unfold before. destruct s; simpl;
    try (split; intros; lra); apply inject_Z_nonpos.
Qed.

Lemma localeCompare_total (a b : string) :
  (localeCompare a b <= 0)%Z \/ (localeCompare b a <= 0)%Z.
Proof.
  pose proof (localeCompare_antisym a b) as H.
  destruct (localeCompare a b), (localeCompare b a); simpl in H;
    try discriminate; try (left; lia); right; lia.
Qed.

Lemma ordered_total (s : ProductSort) (a b : Product) :
  ordered localeCompare s a b \/ ordered localeCompare s b a.
Proof.
  destruct s; simpl; try apply localeCompare_total.
  - destruct (Qlt_le_dec (price b) (price a)); [right|left]; lra.
  - destruct (Qlt_le_dec (price b) (price a)); [left|right]; lra.
  - destruct (Qlt_le_dec (rating b) (rating a)); [right|left]; lra.
  - destruct (Qlt_le_dec (rating b) (rating a)); [left|right]; lra.
Qed.

Lemma ordered_trans (s : ProductSort) (a b c : Product) :
  ordered localeCompare s a b -> ordered localeCompare s b c ->
  ordered localeCompare s a c.
Proof.
  destruct s; simpl; intros H1 H2; try lra.
  - now apply localeCompare_trans with (title b).
  - now apply localeCompare_trans with (title b).
Qed.

Lemma tied_ordered (s : ProductSort) (x a b : Product) :
  tied localeCompare s x a = true -> tied localeCompare s x b = true ->
  ordered localeCompare s a b.
Proof.
  assert (Hz : forall u v, localeCompare u v = 0%Z -> (localeCompare v u <= 0)%Z).
  { intros u v E. pose proof (localeCompare_antisym u v) as H.
    rewrite E in H. simpl in H. destruct (localeCompare v u); simpl in H; lia. }
  destruct s; simpl; rewrite ?Qeq_bool_iff, ?Z.eqb_eq; intros H1 H2; try lra.
  - apply localeCompare_trans with (title x); [now apply Hz | lia].
  - apply localeCompare_trans with (title x); [now apply Hz | lia].
Qed.

(** C4: for each of the six sort orders, [applySort] returns a permutation
    of its input that is sorted by the stated key and direction (numeric
    order on price and rating, the collation [localeCompare] on title), and
    records that tie on the key keep their relative input order. *)
Theorem applySort_sorted_stable (l : list Product) (s : ProductSort) :
  Permutation l (applySort localeCompare l (Some s)) /\
  StronglySorted (ordered localeCompare s) (applySort localeCompare l (Some s)) /\
  forall x, filter (tied localeCompare s x) (applySort localeCompare l (Some s))
            = filter (tied localeCompare s x) l.
Proof.
  cbn [applySort]. split; [apply Array_sort_perm|]. split.
  - apply StronglySorted_impl with (R := before (compareFn localeCompare s)).
    + intros a b. apply before_ordered.
    + apply Array_sort_sorted.
      * intros a b. rewrite !before_ordered. apply ordered_total.
      * intros a b c. rewrite !before_ordered. apply ordered_trans.
  - intros x. apply Array_sort_stable.
    intros a b Ha Hb. apply before_ordered. now apply tied_ordered with x.
Qed.

End Sorting.

Lemma applySort_sorted_stable_witness :
  (forall a b, Z.sgn (caseInsensitiveCompare b a)
               = (- Z.sgn (caseInsensitiveCompare a b))%Z) /\
  (forall a b c, (caseInsensitiveCompare a b <= 0)%Z ->
                 (caseInsensitiveCompare b c <= 0)%Z ->
                 (caseInsensitiveCompare a c <= 0)%Z) /\
  Permutation mockProducts
    (applySort caseInsensitiveCompare mockProducts (Some title_asc)) /\
  StronglySorted (ordered caseInsensitiveCompare title_asc)
    (applySort caseInsensitiveCompare mockProducts (Some title_asc)) /\
  forall x,
    filter (tied caseInsensitiveCompare title_asc x)
      (applySort caseInsensitiveCompare mockProducts (Some title_asc))
    = filter (tied caseInsensitiveCompare title_asc x) mockProducts.
Proof.
  split; [exact caseInsensitiveCompare_antisym|].
  split; [exact caseInsensitiveCompare_trans|].
  exact (applySort_sorted_stable caseInsensitiveCompare
           caseInsensitiveCompare_antisym caseInsensitiveCompare_trans
           mockProducts title_asc).
Defined.

(** ** Pagination *)

Lemma Qceiling_zero_div (q : Q) : Qceiling (0 / q) = 0%Z.
Proof.
  assert (H : 0 / q == 0) by (unfold Qdiv; apply Qmult_0_l).
  rewrite H. reflexivity.
Qed.

Lemma Array_slice_nil {A : Type} (a b : Q) : Js.Array_slice (@nil A) a b = [].
Proof. unfold Js.Array_slice. now rewrite skipn_nil, firstn_nil. Qed.

Lemma inject_Z_one_le (z : Z) : (1 <= z)%Z -> 1 <= inject_Z z.
Proof. intros H. change 1 with (inject_Z 1). now rewrite <- Zle_Qle. Qed.

(** The clamp of [getProductsPaginated]: [Math.min(Math.max(page, 1),
    totalPages)]. *)
Lemma clamp_spec (p : Q) (tp : Z) :
  (1 <= tp)%Z ->
  let c := Js.Math_min (Js.Math_max p 1) (inject_Z tp) in
  1 <= c /\ c <= inject_Z tp /\
  (p < 1 -> c == 1) /\
  (inject_Z tp < p -> c == inject_Z tp) /\
  (1 <= p -> p <= inject_Z tp -> c == p).
Proof.
  intros Htp c. apply inject_Z_one_le in Htp.
  destruct (Math_max_spec p 1) as [M1 [M2 M3]].
  destruct (Math_min_spec (Js.Math_max p 1) (inject_Z tp)) as [N1 [N2 N3]].
  fold c in N1, N2, N3.
  assert (L : 1 <= c) by (destruct N3 as [-> | ->]; assumption).
  split; [exact L|]. split; [exact N2|].
  assert (Hc : c == Js.Math_max p 1 \/ c == inject_Z tp)
    by (destruct N3 as [-> | ->]; [left | right]; reflexivity).
  assert (Hm : Js.Math_max p 1 == p \/ Js.Math_max p 1 == 1)
    by (destruct M3 as [-> | ->]; [left | right]; reflexivity).
  repeat split; intros; destruct Hc as [Hc|Hc], Hm as [Hm|Hm]; lra.
Qed.

Lemma applySort_length (localeCompare : string -> string -> Z)
  (l : list Product) (s : option ProductSort) :
  List.length (applySort localeCompare l s) = List.length l.
Proof. destruct s; simpl; [apply Array_sort_length | reflexivity]. Qed.

Lemma applySort_perm (localeCompare : string -> string -> Z)
  (l : list Product) (s : option ProductSort) :
  Permutation l (applySort localeCompare l s).
Proof. destruct s; simpl; [apply Array_sort_perm | reflexivity]. Qed.

Section Listing.

Variable localeCompare : string -> string -> Z.

(** The network answered the listing request with [resp]. *)
Variables (st : Z) (text : option string) (resp : ProductsResponseDto).

(** C5: whatever page and page size are requested (absent, non-positive,
    fractional or out of range), the listing is produced, its page count is
    at least 1 and its resolved page lies between 1 and the page count.  A
    page below 1 resolves to 1, a page beyond the last resolves to the last,
    a page in range is kept; an absent or non-positive page size resolves to
    20; an empty record set has one page and no items. *)
Theorem getProductsPaginated_clamps (opts : GetProductsOptions) :
  exists r,
    getProductsPaginated localeCompare (answers st text resp) opts = Resolved r /\
    (1 <= totalPages r)%Z /\
    1 <= page r /\ page r <= inject_Z (totalPages r) /\
    (forall p, opt_page opts = Some p -> p < 1 -> page r == 1) /\
    (opt_page opts = None -> page r == 1) /\
    (forall p, opt_page opts = Some p -> inject_Z (totalPages r) < p ->
       page r == inject_Z (totalPages r)) /\
    (forall p, opt_page opts = Some p -> 1 <= p -> p <= inject_Z (totalPages r) ->
       page r == p) /\
    (forall ps, opt_pageSize opts = Some ps -> ps <= 0 -> pageSize r = 20) /\
    (opt_pageSize opts = None -> pageSize r = 20) /\
    (forall ps, opt_pageSize opts = Some ps -> 0 < ps -> pageSize r = ps) /\
    (total r = 0%nat -> totalPages r = 1%Z /\ items r = []).
Proof.
  destruct opts as [F s p ps].
  eexists. split; [reflexivity|].
  cbn [items total page pageSize totalPages opt_page opt_pageSize filters sort].
  set (sorted := applySort _ _ _).
  set (sps := if Qltb 0 _ then _ else _).
  set (tp := Z.max 1 _).
  assert (Htp : (1 <= tp)%Z) by (unfold tp; lia).
  destruct (clamp_spec (Js.nullish p 1) tp Htp) as [C1 [C2 [C3 [C4 C5]]]].
  split; [exact Htp|]. split; [exact C1|]. split; [exact C2|].
  split; [intros p0 E; inversion E; subst; exact C3|].
  split.
  { intros E. subst p. apply C5; simpl; [lra | now apply inject_Z_one_le]. }
  split; [intros p0 E; inversion E; subst; exact C4|].
  split; [intros p0 E; inversion E; subst; exact C5|].
  split.
  { intros ps0 E L. inversion E; subst. unfold sps. simpl.
    apply Qltb_ge in L. now rewrite L. }
  split; [intros E; inversion E; subst; reflexivity|].
  split.
  { intros ps0 E L. inversion E; subst. unfold sps. simpl.
    apply Qltb_lt in L. now rewrite L. }
  intros E. apply length_zero_iff_nil in E.
  unfold tp. rewrite E. simpl List.length. split.
  - change (inject_Z (Z.of_nat 0)) with 0. unfold Js.Math_ceil.
    rewrite Qceiling_zero_div. reflexivity.
  - now rewrite Array_slice_nil.
Qed.

(** C6: the listing is the page window of the sorted filtered records, in
    that order of composition, and its [total] is the number of records
    that pass the filter, whatever page and page size are requested. *)
Theorem getProductsPaginated_total (opts : GetProductsOptions) :
  let filtered :=
    applyFilters (map mapDtoToDomain (products resp))
      (Js.nullish (filters opts) noFilters) in
  exists r,
    getProductsPaginated localeCompare (answers st text resp) opts = Resolved r /\
    total r = List.length filtered /\
    items r =
      map toProductListItem
        (Js.Array_slice (applySort localeCompare filtered (sort opts))
           ((page r - 1) * pageSize r)
           ((page r - 1) * pageSize r + pageSize r)) /\
    forall p ps,
    exists r',
      getProductsPaginated localeCompare (answers st text resp)
        {| filters := filters opts; sort := sort opts;
           opt_page := p; opt_pageSize := ps |} = Resolved r' /\
      total r' = total r.
Proof.
  intros filtered. eexists. split; [reflexivity|].
  cbn [items total page pageSize totalPages].
  split; [apply applySort_length|]. split; [reflexivity|].
  intros p ps. eexists. split; reflexivity.
Qed.

End Listing.

(** ** Insights *)

Section Insights.

Variable localeCompare : string -> string -> Z.

(** All failure comes from the fetch: the listing is rejected exactly when
    the fetch is, and with the same error. *)
Lemma getProductsPaginated_rejected
  (net : FetchOutcome ProductsResponseDto) (opts : GetProductsOptions)
  (e : HttpError) :
  getProductsPaginated localeCompare net opts = Rejected e
  <-> fetchJson net = Rejected e.
Proof.
  unfold getProductsPaginated, getAllProducts, fetchProductsFromDummyJson.
  destruct (fetchJson net); simpl; split; intros H;
    try discriminate; inversion H; reflexivity.
Qed.

(** C1: for one answer of the catalog and one criteria set [F], the records
    the insights are computed over are [applyFilters records F], the very
    records the listing sorts and cuts into pages: the insights count and
    the listing total are both its length, the listing items are a window
    of a permutation of it, and both operations fail together when the
    fetch fails. *)
Theorem insights_population_is_listing_population
  (net : FetchOutcome ProductsResponseDto) (F : option ProductFilters)
  (s : option ProductSort) (p ps : option Q) :
  let opts := {| filters := F; sort := s; opt_page := p; opt_pageSize := ps |} in
  match getAllProducts net with
  | Resolved records =>
      let population := applyFilters records (Js.nullish F noFilters) in
      getProductsForInsights net F = Resolved population /\
      getProductsInsights net F =
        Resolved
          {| averagePriceGlobal := computeAveragePrice population;
             averageRatingGlobal := computeAverageRating population;
             averageStockGlobal := computeAverageStock population;
             totalProducts := List.length population;
             totalStock := computeTotalStock population;
             mostCommonCategory := computeMostCommonCategory population;
             lowStockCount := computeLowStockCount population None;
             topRatedProducts := computeTopRatedProducts population None;
             stockByCategory := computeStockByCategory population |} /\
      exists r,
        getProductsPaginated localeCompare net opts = Resolved r /\
        total r = List.length population /\
        Permutation population (applySort localeCompare population s) /\
        items r =
          map toProductListItem
            (Js.Array_slice (applySort localeCompare population s)
               ((page r - 1) * pageSize r)
               ((page r - 1) * pageSize r + pageSize r))
  | Rejected e =>
      getProductsInsights net F = Rejected e /\
      getProductsPaginated localeCompare net opts = Rejected e
  end.
Proof.
  intros opts.
  unfold getProductsInsights, getProductsForInsights, getProductsPaginated.
  destruct (getAllProducts net) as [records|e]; cbn [await].
  - split; [reflexivity|]. split; [reflexivity|].
    eexists. split; [reflexivity|].
    cbn [items total page pageSize totalPages opts filters sort].
    split; [apply applySort_length|].
    split; [apply applySort_perm | reflexivity].
  - split; reflexivity.
Qed.

(** C8: the low-stock count is the number of records whose stock is
    strictly below 10, and a record whose stock equals 10 is not counted. *)
Theorem computeLowStockCount_strict (l : list Product) :
  (exists low,
     Selects (fun p => stock p < 10) l low /\
     computeLowStockCount l None = List.length low) /\
  (forall p, stock p == 10 ->
     computeLowStockCount (p :: l) None = computeLowStockCount l None).
Proof.
  unfold computeLowStockCount. cbn [Js.nullish]. split.
  - exists (filter (fun p => Qltb (stock p) LOW_STOCK_THRESHOLD) l).
    split; [|reflexivity].
    apply filter_Selects. intros p. apply Qltb_lt.
  - intros p E. cbn [filter].
    assert (H : Qltb (stock p) LOW_STOCK_THRESHOLD = false)
      by (apply Qltb_ge; unfold LOW_STOCK_THRESHOLD; lra).
    now rewrite H.
Qed.

(** C9: over the empty record set the three averages are 0, the total
    stock is 0, no category is the most common, the low-stock count is 0
    and the top-rated and per-category lists are empty. *)
Theorem getProductsInsights_empty
  (net : FetchOutcome ProductsResponseDto) (F : option ProductFilters) :
  getProductsForInsights net F = Resolved [] ->
  getProductsInsights net F =
    Resolved
      {| averagePriceGlobal := 0;
         averageRatingGlobal := 0;
         averageStockGlobal := 0;
         totalProducts := 0;
         totalStock := 0;
         mostCommonCategory := None;
         lowStockCount := 0;
         topRatedProducts := [];
         stockByCategory := [] |}.
Proof.
  intros H. unfold getProductsInsights. rewrite H. reflexivity.
Qed.

End Insights.

(** A criteria set no record of the sample catalog satisfies. *)
Lemma getProductsInsights_empty_witness :
  let F := Some {| f_search := None; f_category := Some "tablets"%string;
                   f_minPrice := None; f_maxPrice := None;
                   f_maxStock := None |} in
  let net := serves (map toDto mockProducts) in
  getProductsForInsights net F = Resolved [] /\
  getProductsInsights net F =
    Resolved
      {| averagePriceGlobal := 0;
         averageRatingGlobal := 0;
         averageStockGlobal := 0;
         totalProducts := 0;
         totalStock := 0;
         mostCommonCategory := None;
         lowStockCount := 0;
         topRatedProducts := [];
         stockByCategory := [] |}.
Proof.
  intros F net. split; [reflexivity|].
  apply (getProductsInsights_empty net F). reflexivity.
Defined.

(** ** Single-record lookup *)

(** [getProductById] never rejects: whatever the fetch rejects with becomes
    the not-found result. *)
Lemma getProductById_not_found_iff (net : Z -> FetchOutcome ProductDto) (id : Z) :
  getProductById net id = Resolved None
  <-> exists e, fetchProductByIdFromDummyJson net id = Rejected e.
Proof.
  unfold getProductById.
  destruct (fetchProductByIdFromDummyJson net id) as [d|e]; split.
  - discriminate.
  - intros [e H]. discriminate.
  - intros _. now exists e.
  - reflexivity.
Qed.

Lemma getProductById_resolves (net : Z -> FetchOutcome ProductDto) (id : Z) :
  exists r, getProductById net id = Resolved r.
Proof.
  unfold getProductById.
  destruct (fetchProductByIdFromDummyJson net id); eexists; reflexivity.
Qed.

(** The handler's upstream-failure answer is unreachable. *)
Lemma GET_product_never_502 (net : Z -> FetchOutcome ProductDto)
  (idParam : ParsedInt) :
  snd (GET_product net idParam) <> 502%Z.
Proof.
  unfold GET_product. destruct idParam as [|id]; [discriminate|].
  destruct (id <=? 0)%Z; [discriminate|].
  destruct (getProductById_resolves net id) as [[product|] ->]; discriminate.
Qed.

(** C2 fails on the code: when the fetch of record 1 times out, the fetch
    layer rejects with status 408, yet [getProductById] resolves to the
    not-found result, exactly as when the catalog reports the record
    absent, and the route answers 404 "Product not found". *)
Theorem getProductById_timeout_reads_as_not_found :
  fetchProductByIdFromDummyJson timesOut 1
    = Rejected {| status := 408;
                  message := "Request to external API timed out" |} /\
  getProductById timesOut 1 = Resolved None /\
  getProductById reportsAbsent 1 = Resolved None /\
  GET_product timesOut (Int 1) = (ErrorBody "Product not found", 404%Z) /\
  GET_product reportsAbsent (Int 1) = (ErrorBody "Product not found", 404%Z).
Proof. repeat split. Qed.

(** ** Most common category *)

(** C7 fails on the code: on a non-empty list whose most common category
    is the empty string, the scan finds that category with its count, and
    [computeMostCommonCategory] answers null. *)
Theorem computeMostCommonCategory_empty_name_is_null :
  scanMax (countCategories [unlabelled; iphone; unlabelled])
    = (Some EmptyString, 2%nat) /\
  occurrences EmptyString [unlabelled; iphone; unlabelled] = 2%nat /\
  computeMostCommonCategory [unlabelled; iphone; unlabelled] = None /\
  computeMostCommonCategory [unlabelled] = None.
Proof. repeat split. Qed.

(** *** The counting loop *)

Lemma countCategories_snoc (l : list Product) (p : Product) :
  countCategories (l ++ [p]) = bump (countCategories l) (category p).
Proof. unfold countCategories. now rewrite fold_left_app. Qed.

Lemma bump_cons (k : string) (v : nat) (m : Js.Map nat) (c : string) :
  bump ((k, v) :: m) c
  = if String.eqb k c then (k, (v + 1)%nat) :: m else (k, v) :: bump m c.
Proof. unfold bump. simpl. now destruct (String.eqb k c). Qed.

Lemma Map_get_bump (m : Js.Map nat) (c c' : string) :
  Js.Map_get (bump m c) c'
  = if String.eqb c c' then Some (Js.nullish (Js.Map_get m c) 0 + 1)%nat
    else Js.Map_get m c'.
Proof.
  induction m as [|[k v] m IH]; [reflexivity|].
  rewrite bump_cons. cbn [Js.Map_get].
  destruct (String.eqb_spec k c) as [->|Hkc].
  - cbn [Js.Map_get Js.nullish]. now destruct (String.eqb c c').
  - cbn [Js.Map_get]. rewrite IH.
    destruct (String.eqb_spec c c') as [E|Hcc].
    + subst c'. now rewrite (proj2 (String.eqb_neq k c) Hkc).
    + reflexivity.
Qed.

Lemma keys_bump (m : Js.Map nat) (c : string) :
  map fst (bump m c)
  = match Js.Map_get m c with
    | Some _ => map fst m
    | None => map fst m ++ [c]
    end.
Proof.
  induction m as [|[k v] m IH]; [reflexivity|].
  rewrite bump_cons. cbn [Js.Map_get].
  destruct (String.eqb k c); [reflexivity|].
  cbn [map fst]. rewrite IH. now destruct (Js.Map_get m c).
Qed.

Lemma Map_get_In {V : Type} (m : Js.Map V) (c : string) (v : V) :
  Js.Map_get m c = Some v -> In (c, v) m.
Proof.
  induction m as [|[k w] m IH]; simpl; [discriminate|].
  destruct (String.eqb_spec k c) as [->|N].
  - intros E. inversion E. now left.
  - intros E. right. now apply IH.
Qed.

Lemma Map_get_key {V : Type} (m : Js.Map V) (c : string) :
  In c (map fst m) -> exists v, Js.Map_get m c = Some v.
Proof.
  induction m as [|[k w] m IH]; simpl; [contradiction|].
  destruct (String.eqb_spec k c) as [->|N].
  - intros _. now exists w.
  - intros [E|H]; [contradiction | now apply IH].
Qed.

Lemma In_Map_get {V : Type} (m : Js.Map V) (c : string) (v : V) :
  NoDup (map fst m) -> In (c, v) m -> Js.Map_get m c = Some v.
Proof.
  induction m as [|[k w] m IH]; simpl; [contradiction|].
  intros ND [E|H].
  - inversion E. now rewrite String.eqb_refl.
  - inversion ND as [|? ? Hk ND']; subst.
    destruct (String.eqb_spec k c) as [->|N]; [|now apply IH].
    elim Hk. apply in_map_iff. exists (c, v). now split.
Qed.

(** *** Occurrences and first positions *)

Lemma occurrences_snoc (c : string) (l : list Product) (p : Product) :
  occurrences c (l ++ [p])
  = (occurrences c l + if String.eqb (category p) c then 1 else 0)%nat.
Proof.
  unfold occurrences. rewrite filter_app, length_app. simpl.
  now destruct (String.eqb (category p) c).
Qed.

Lemma occurrences_cons (c : string) (p : Product) (l : list Product) :
  occurrences c (p :: l)
  = ((if String.eqb (category p) c then 1 else 0) + occurrences c l)%nat.
Proof.
  unfold occurrences. simpl. now destruct (String.eqb (category p) c).
Qed.

Lemma firstSeen_present (c : string) (l l' : list Product) :
  occurrences c l <> 0%nat ->
  (firstSeen c l < List.length l)%nat /\ firstSeen c (l ++ l') = firstSeen c l.
Proof.
  induction l as [|p l IH]; [intros H; now elim H|].
  rewrite occurrences_cons. simpl.
  destruct (String.eqb (category p) c); [intros _; split; [lia | reflexivity]|].
  intros H. destruct (IH H) as [H1 H2]. split; [lia | now rewrite H2].
Qed.

Lemma firstSeen_absent (c : string) (l : list Product) (p : Product) :
  occurrences c l = 0%nat -> category p = c ->
  firstSeen c (l ++ [p]) = List.length l.
Proof.
  intros H E. induction l as [|q l IH]; simpl.
  - now rewrite E, String.eqb_refl.
  - rewrite occurrences_cons in H.
    destruct (String.eqb (category q) c); [discriminate|].
    now rewrite IH.
Qed.

(** *** The map built by the counting loop *)

Lemma StronglySorted_snoc {A : Type} (R : A -> A -> Prop) (l : list A) (y : A) :
  StronglySorted R l -> Forall (fun x => R x y) l ->
  StronglySorted R (l ++ [y]).
Proof.
  induction 1 as [|x l Hs IH Hall]; intros HF; simpl.
  - repeat constructor.
  - inversion HF; subst. constructor; [now apply IH|].
    apply Forall_app. split; [exact Hall | now constructor].
Qed.

Lemma StronglySorted_after {A : Type} (R : A -> A -> Prop) (l1 l2 : list A)
  (x : A) :
  StronglySorted R (l1 ++ x :: l2) -> Forall (R x) l2.
Proof.
  induction l1 as [|y l1 IH]; simpl; intros H; inversion H; subst; auto.
Qed.

Lemma StronglySorted_lt_NoDup {A : Type} (f : A -> nat) (l : list A) :
  StronglySorted lt (map f l) -> NoDup l.
Proof.
  induction l as [|x l IH]; simpl; intros H; [constructor|].
  inversion H as [|? ? Hs Hall]; subst. constructor; [|now apply IH].
  intros Hin. rewrite Forall_forall in Hall.
  specialize (Hall (f x) (in_map f _ _ Hin)). lia.
Qed.

Lemma countCategories_counted (l : list Product) :
  counted l (countCategories l).
Proof.
  induction l as [|p l [G Hs]] using rev_ind.
  - split; [reflexivity | constructor].
  - rewrite countCategories_snoc. split.
    + intros c. rewrite Map_get_bump, occurrences_snoc, G.
      destruct (String.eqb_spec (category p) c) as [<-|N].
      * destruct (occurrences (category p) l) eqn:E; reflexivity.
      * now rewrite Nat.add_0_r.
    + assert (K : map (fun k => firstSeen k (l ++ [p])) (map fst (countCategories l))
                  = map (fun k => firstSeen k l) (map fst (countCategories l))).
      { apply map_ext_in. intros k Hk.
        apply Map_get_key in Hk. destruct Hk as [v Hv]. rewrite G in Hv.
        apply firstSeen_present.
        destruct (occurrences k l); [discriminate | lia]. }
      rewrite keys_bump. rewrite G.
      destruct (occurrences (category p) l =? 0)%nat eqn:E.
      * rewrite map_app, K. apply StronglySorted_snoc; [exact Hs|].
        apply Nat.eqb_eq in E.
        cbn [map]. rewrite (firstSeen_absent _ _ _ E eq_refl).
        apply Forall_forall. intros x Hx.
        apply in_map_iff in Hx. destruct Hx as [k [<- Hk]].
        apply Map_get_key in Hk. destruct Hk as [v Hv]. rewrite G in Hv.
        apply (firstSeen_present k l []).
        destruct (occurrences k l); [discriminate | lia].
      * now rewrite K.
Qed.

(** *** The scan for the maximum *)

Lemma scanMax_fold (m : Js.Map nat) :
  scanMax m = fold_left scanStep m (None, 0%nat).
Proof. reflexivity. Qed.

(** Scanning from [(mc, k)] either changes nothing, every count being at
    most [k], or stops on the first entry whose count is the greatest. *)
Lemma scan_first_greatest (m : Js.Map nat) :
  forall (mc : option string) (k : nat),
    (fold_left scanStep m (mc, k) = (mc, k) /\
     Forall (fun e => (snd e <= k)%nat) m) \/
    (exists m1 c n m2,
       m = m1 ++ (c, n) :: m2 /\
       fold_left scanStep m (mc, k) = (Some c, n) /\
       (k < n)%nat /\
       Forall (fun e => (snd e < n)%nat) m1 /\
       Forall (fun e => (snd e <= n)%nat) m2).
Proof.
  induction m as [|[c0 n0] m IH]; intros mc k.
  - left. split; [reflexivity | constructor].
  - cbn [fold_left scanStep].
    destruct (k <? n0)%nat eqn:E.
    + apply Nat.ltb_lt in E. right.
      destruct (IH (Some c0) n0) as [[R HF]|[m1 [c [n [m2 [Hm [R [Hk [H1 H2]]]]]]]]].
      * exists [], c0, n0, m.
        split; [reflexivity|]. split; [exact R|]. split; [exact E|].
        split; [constructor | exact HF].
      * exists ((c0, n0) :: m1), c, n, m2. subst m.
        split; [reflexivity|]. split; [exact R|]. split; [lia|].
        split; [|exact H2]. constructor; [simpl; lia | exact H1].
    + apply Nat.ltb_ge in E.
      destruct (IH mc k) as [[R HF]|[m1 [c [n [m2 [Hm [R [Hk [H1 H2]]]]]]]]].
      * left. split; [exact R|]. constructor; [simpl; lia | exact HF].
      * right. exists ((c0, n0) :: m1), c, n, m2. subst m.
        split; [reflexivity|]. split; [exact R|]. split; [exact Hk|].
        split; [|exact H2]. constructor; [simpl; lia | exact H1].
Qed.

(** X23: on a non-empty list the scan ends on a category [c] with its
    number of occurrences [n]; no category occurs
    more often, and every category that occurs as often is first seen no
    earlier than [c].  The function returns that pair unless [c] is the
    empty string, in which case it returns null. *)
Lemma computeMostCommonCategory_first_greatest (l : list Product) :
  l <> [] ->
  exists c n,
    scanMax (countCategories l) = (Some c, n) /\
    n = occurrences c l /\
    (0 < n)%nat /\
    (forall c', (occurrences c' l <= n)%nat) /\
    (forall c', occurrences c' l = n -> (firstSeen c l <= firstSeen c' l)%nat) /\
    computeMostCommonCategory l = if Js.truthy c then Some (c, n) else None.
Proof.
  intros Hl.
  destruct (countCategories_counted l) as [G Hs].
  pose proof (StronglySorted_lt_NoDup _ _ Hs) as ND.
  assert (Hin : forall c n, In (c, n) (countCategories l) ->
                            n = occurrences c l /\ n <> 0%nat).
  { intros c n H. apply (In_Map_get _ _ _ ND) in H. rewrite G in H.
    destruct (occurrences c l =? 0)%nat eqn:E; [discriminate|].
    apply Nat.eqb_neq in E. inversion H. split; [reflexivity | lia]. }
  assert (Hget : forall c, occurrences c l <> 0%nat ->
                           In (c, occurrences c l) (countCategories l)).
  { intros c H. apply Map_get_In. rewrite G.
    apply Nat.eqb_neq in H. now rewrite H. }
  rewrite scanMax_fold.
  destruct (scan_first_greatest (countCategories l) None 0%nat)
    as [[_ HF]|[m1 [c [n [m2 [Hm [R [Hk [H1 H2]]]]]]]]].
  - exfalso. destruct l as [|p l]; [now elim Hl|].
    assert (Hp : occurrences (category p) (p :: l) <> 0%nat).
    { rewrite occurrences_cons, String.eqb_refl. lia. }
    rewrite Forall_forall in HF.
    specialize (HF _ (Hget _ Hp)). simpl in HF. lia.
  - assert (Hc : In (c, n) (countCategories l))
      by (rewrite Hm; apply in_elt).
    destruct (Hin _ _ Hc) as [Hn _].
    assert (Hcase : forall c', occurrences c' l <> 0%nat ->
              In (c', occurrences c' l) m1 \/ (c', occurrences c' l) = (c, n)
              \/ In (c', occurrences c' l) m2).
    { intros c' H. specialize (Hget c' H). rewrite Hm in Hget.
      apply in_app_or in Hget. destruct Hget as [H0|[H0|H0]]; auto. }
    rewrite Forall_forall in H1, H2.
    exists c, n. split; [exact R|]. split; [exact Hn|]. split; [exact Hk|].
    split; [|split].
    + intros c'. destruct (Nat.eq_dec (occurrences c' l) 0) as [Z|NZ]; [lia|].
      destruct (Hcase c' NZ) as [H0|[H0|H0]].
      * specialize (H1 _ H0). simpl in H1. lia.
      * inversion H0. lia.
      * specialize (H2 _ H0). simpl in H2. lia.
    + intros c' E.
      assert (NZ : occurrences c' l <> 0%nat) by lia.
      destruct (Hcase c' NZ) as [H0|[H0|H0]].
      * specialize (H1 _ H0). simpl in H1. lia.
      * inversion H0. subst c'. lia.
      * rewrite Hm, !map_app in Hs. cbn [map fst] in Hs.
        apply StronglySorted_after in Hs. rewrite Forall_forall in Hs.
        assert (Hlt : (firstSeen c l < firstSeen c' l)%nat).
        { apply Hs. apply in_map_iff. exists c'. split; [reflexivity|].
          apply in_map_iff. exists (c', occurrences c' l). now split. }
        lia.
    + unfold computeMostCommonCategory.
      destruct l as [|p l]; [now elim Hl|]. cbn [List.length Nat.eqb].
      rewrite scanMax_fold, R. cbn [Js.truthy_opt Js.nullish].
      now destruct (Js.truthy c).
Qed.

(** ** The scenarios of the specification *)

(** Scenario A: the aggregates of the four-record catalog. *)
Example scenario_A :
  computeAveragePrice mockProducts == 1274 /\
  computeTotalStock mockProducts = 105 /\
  computeMostCommonCategory mockProducts = Some ("smartphones"%string, 2%nat) /\
  computeLowStockCount mockProducts None = 1%nat.
Proof. repeat split. Qed.

(** Scenario B: ascending price order. *)
Example scenario_B :
  map price (applySort caseInsensitiveCompare mockProducts (Some price_asc))
  = [799; 999; 1299; 1999].
Proof. reflexivity. Qed.

(** Scenario C: category, minimum price and search combined. *)
Example scenario_C :
  applyFilters mockProducts
    {| f_search := Some "Samsung"%string;
       f_category := Some "smartphones"%string;
       f_minPrice := Some 700; f_maxPrice := None; f_maxStock := None |}
  = [galaxy].
Proof. reflexivity. Qed.

(** Scenario D: page 5 of a four-record listing is clamped to page 1. *)
Example scenario_D :
  getProductsPaginated caseInsensitiveCompare (serves (map toDto mockProducts))
    {| filters := None; sort := None;
       opt_page := Some 5; opt_pageSize := Some 20 |}
  = Resolved {| items := map toProductListItem mockProducts;
                total := 4; page := 1; pageSize := 20; totalPages := 1 |}.
Proof. reflexivity. Qed.

(** Title order follows the collation, and ties in rating keep the input
    order in the top-rated list. *)
Example title_order :
  map title (applySort caseInsensitiveCompare mockProducts (Some title_asc))
  = ["Dell XPS"; "iPhone 15"; "MacBook Pro"; "Samsung Galaxy"]%string.
Proof. reflexivity. Qed.

(** On a tie the category seen first wins. *)
Example tie_first_seen :
  computeMostCommonCategory [macbook; iphone; galaxy; dell]
  = Some ("laptops"%string, 2%nat).
Proof. reflexivity. Qed.

(** * Further properties of the code *)

(** ** Sorting twice, and sorting against filtering *)

Section StableSortMore.

Context {A : Type}.
Variable compareFn : A -> A -> Q.

Lemma sort_insert_head (x : A) (l : list A) :
  Forall (before compareFn x) l -> Js.sort_insert compareFn x l = x :: l.
Proof.
  intros H. destruct l as [|y l]; [reflexivity|].
  inversion H as [|? ? Hy _]; subst. simpl.
  apply Qle_bool_iff in Hy. now rewrite Hy.
Qed.

(** A sorted array is left as it is. *)
Lemma Array_sort_sorted_id (l : list A) :
  StronglySorted (before compareFn) l -> Js.Array_sort compareFn l = l.
Proof.
  induction 1 as [|x l Hs IH Hall]; [reflexivity|].
  cbn [Js.Array_sort fold_right]. fold (Js.Array_sort compareFn l).
  rewrite IH. now apply sort_insert_head.
Qed.

Hypothesis before_total :
  forall a b, before compareFn a b \/ before compareFn b a.
Hypothesis before_trans :
  forall a b c, before compareFn a b -> before compareFn b c ->
                before compareFn a c.

Lemma Array_sort_idempotent (l : list A) :
  Js.Array_sort compareFn (Js.Array_sort compareFn l)
  = Js.Array_sort compareFn l.
Proof.
  apply Array_sort_sorted_id. now apply Array_sort_sorted.
Qed.

Lemma sort_insert_filter_commute (P : A -> bool) (x : A) (l : list A) :
  StronglySorted (before compareFn) l ->
  filter P (Js.sort_insert compareFn x l)
  = if P x then Js.sort_insert compareFn x (filter P l) else filter P l.
Proof.
  induction 1 as [|y l Hs IH Hall].
  - simpl. now destruct (P x).
  - cbn [Js.sort_insert].
    destruct (Qle_bool (compareFn x y) 0) eqn:E.
    + change (filter P (x :: y :: l))
        with (if P x then x :: filter P (y :: l) else filter P (y :: l)).
      destruct (P x); [|reflexivity].
      symmetry. apply sort_insert_head.
      apply Qle_bool_iff in E.
      assert (Hx : Forall (before compareFn x) (y :: l)).
      { constructor; [exact E|].
        eapply Forall_impl; [|exact Hall].
        intros z Hz. now apply before_trans with y. }
      rewrite Forall_forall in *. intros z Hz.
      apply Hx. apply filter_In in Hz. tauto.
    + cbn [filter]. rewrite IH.
      destruct (P x), (P y); try reflexivity.
      cbn [Js.sort_insert]. now rewrite E.
Qed.

Lemma Array_sort_filter_commute (P : A -> bool) (l : list A) :
  filter P (Js.Array_sort compareFn l) = Js.Array_sort compareFn (filter P l).
Proof.
  induction l as [|x l IH]; [reflexivity|].
  cbn [Js.Array_sort fold_right filter]. fold (Js.Array_sort compareFn l).
  rewrite sort_insert_filter_commute by now apply Array_sort_sorted.
  rewrite IH. now destruct (P x).
Qed.

End StableSortMore.

Section SortingMore.

Variable localeCompare : string -> string -> Z.
Hypothesis localeCompare_antisym :
  forall a b, Z.sgn (localeCompare b a) = (- Z.sgn (localeCompare a b))%Z.
Hypothesis localeCompare_trans :
  forall a b c, (localeCompare a b <= 0)%Z -> (localeCompare b c <= 0)%Z ->
                (localeCompare a c <= 0)%Z.

Lemma compareFn_total (s : ProductSort) (a b : Product) :
  before (compareFn localeCompare s) a b \/
  before (compareFn localeCompare s) b a.
Proof.
  rewrite !before_ordered. now apply ordered_total.
Qed.

Lemma compareFn_trans (s : ProductSort) (a b c : Product) :
  before (compareFn localeCompare s) a b ->
  before (compareFn localeCompare s) b c ->
  before (compareFn localeCompare s) a c.
Proof.
  rewrite !before_ordered. now apply ordered_trans.
Qed.

(** X1: sorting an already sorted listing again, by the same order,
    changes nothing. *)
Theorem applySort_idempotent (l : list Product) (s : option ProductSort) :
  applySort localeCompare (applySort localeCompare l s) s
  = applySort localeCompare l s.
Proof.
  destruct s as [s|]; [|reflexivity]. cbn [applySort].
  apply Array_sort_idempotent;
    [apply compareFn_total | apply compareFn_trans].
Qed.

(** X2: filtering the sorted records gives the same array as sorting the
    filtered records. *)
Theorem applyFilters_applySort_commute (l : list Product)
  (F : ProductFilters) (s : option ProductSort) :
  applyFilters (applySort localeCompare l s) F
  = applySort localeCompare (applyFilters l F) s.
Proof.
  destruct s as [s|]; [|reflexivity]. cbn [applySort]. unfold applyFilters.
  apply Array_sort_filter_commute;
    [apply compareFn_total | apply compareFn_trans].
Qed.

End SortingMore.

Lemma applySort_idempotent_witness :
  (forall a b, Z.sgn (caseInsensitiveCompare b a)
               = (- Z.sgn (caseInsensitiveCompare a b))%Z) /\
  (forall a b c, (caseInsensitiveCompare a b <= 0)%Z ->
                 (caseInsensitiveCompare b c <= 0)%Z ->
                 (caseInsensitiveCompare a c <= 0)%Z) /\
  applySort caseInsensitiveCompare
    (applySort caseInsensitiveCompare mockProducts (Some title_desc))
    (Some title_desc)
  = applySort caseInsensitiveCompare mockProducts (Some title_desc).
Proof.
  split; [exact caseInsensitiveCompare_antisym|].
  split; [exact caseInsensitiveCompare_trans|].
  exact (applySort_idempotent caseInsensitiveCompare
           caseInsensitiveCompare_antisym caseInsensitiveCompare_trans
           mockProducts (Some title_desc)).
Defined.

Lemma applyFilters_applySort_commute_witness :
  (forall a b, Z.sgn (caseInsensitiveCompare b a)
               = (- Z.sgn (caseInsensitiveCompare a b))%Z) /\
  (forall a b c, (caseInsensitiveCompare a b <= 0)%Z ->
                 (caseInsensitiveCompare b c <= 0)%Z ->
                 (caseInsensitiveCompare a c <= 0)%Z) /\
  applyFilters
    (applySort caseInsensitiveCompare mockProducts (Some rating_desc))
    smartphonesFrom800
  = applySort caseInsensitiveCompare
      (applyFilters mockProducts smartphonesFrom800) (Some rating_desc).
Proof.
  split; [exact caseInsensitiveCompare_antisym|].
  split; [exact caseInsensitiveCompare_trans|].
  exact (applyFilters_applySort_commute caseInsensitiveCompare
           caseInsensitiveCompare_antisym caseInsensitiveCompare_trans
           mockProducts smartphonesFrom800 (Some rating_desc)).
Defined.

(** ** Composing filters *)

Lemma filter_filter_andb {A : Type} (f g : A -> bool) (l : list A) :
  filter f (filter g l) = filter (fun x => (g x && f x)%bool) l.
Proof.
  induction l as [|x l IH]; [reflexivity|]. simpl.
  destruct (g x); simpl; [destruct (f x)|]; now rewrite IH.
Qed.

Lemma filter_length_le {A : Type} (f : A -> bool) (l : list A) :
  (List.length (filter f l) <= List.length l)%nat.
Proof.
  induction l as [|x l IH]; simpl; [lia|]. destruct (f x); simpl; lia.
Qed.

(** X3: applying a criteria set twice is the same as applying it once, two
    criteria sets can be applied in either order, and filtering never
    yields more records than it is given. *)
Theorem applyFilters_compose (l : list Product) (F G : ProductFilters) :
  applyFilters (applyFilters l F) F = applyFilters l F /\
  applyFilters (applyFilters l F) G = applyFilters (applyFilters l G) F /\
  (List.length (applyFilters l F) <= List.length l)%nat.
Proof.
  unfold applyFilters. rewrite !filter_filter_andb. split; [|split].
  - apply filter_ext. intros p. now destruct (keeps F p).
  - apply filter_ext. intros p. apply andb_comm.
  - apply filter_length_le.
Qed.

(** ** Case-insensitive search *)

Lemma lower_ascii_idempotent (c : ascii) :
  Js.lower_ascii (Js.lower_ascii c) = Js.lower_ascii c.
Proof.
  destruct c as [b0 b1 b2 b3 b4 b5 b6 b7].
  destruct b0, b1, b2, b3, b4, b5, b6, b7; reflexivity.
Qed.

Lemma toLowerCase_idempotent (s : string) :
  Js.toLowerCase (Js.toLowerCase s) = Js.toLowerCase s.
Proof.
  induction s as [|c s IH]; simpl; [reflexivity|].
  now rewrite lower_ascii_idempotent, IH.
Qed.

Lemma truthy_toLowerCase (s : string) :
  Js.truthy (Js.toLowerCase s) = Js.truthy s.
Proof. destruct s; reflexivity. Qed.

(** X4: the search term is matched without regard to its case: two terms
    with the same lowercase form select the same records, whatever the
    other criteria are; in particular a term and its lowercase form do. *)
Theorem applyFilters_search_case_insensitive
  (l : list Product) (s s' : string) (c : option string)
  (mn mx ms : option Q) :
  Js.toLowerCase s = Js.toLowerCase s' ->
  applyFilters l (mkProductFilters (Some s) c mn mx ms)
  = applyFilters l (mkProductFilters (Some s') c mn mx ms) /\
  applyFilters l (mkProductFilters (Some (Js.toLowerCase s)) c mn mx ms)
  = applyFilters l (mkProductFilters (Some s) c mn mx ms).
Proof.
  intros E.
  assert (K : forall a b, Js.toLowerCase a = Js.toLowerCase b ->
            applyFilters l (mkProductFilters (Some a) c mn mx ms)
            = applyFilters l (mkProductFilters (Some b) c mn mx ms)).
  { intros a b Eab. unfold applyFilters. apply filter_ext. intros p.
    unfold keeps.
    cbn [f_search f_category f_minPrice f_maxPrice f_maxStock
         Js.truthy_opt Js.nullish].
    rewrite <- (truthy_toLowerCase a), <- (truthy_toLowerCase b), Eab.
    reflexivity. }
  split; [now apply K|]. apply K. apply toLowerCase_idempotent.
Qed.

Lemma applyFilters_search_case_insensitive_witness :
  Js.toLowerCase "IPHONE" = Js.toLowerCase "iPhone" /\
  applyFilters mockProducts
    (mkProductFilters (Some "IPHONE"%string) None None None None)
  = applyFilters mockProducts
      (mkProductFilters (Some "iPhone"%string) None None None None) /\
  applyFilters mockProducts
    (mkProductFilters (Some (Js.toLowerCase "IPHONE")) None None None None)
  = applyFilters mockProducts
      (mkProductFilters (Some "IPHONE"%string) None None None None).
Proof.
  split; [reflexivity|].
  apply (applyFilters_search_case_insensitive mockProducts
           "IPHONE" "iPhone" None None None None).
  reflexivity.
Defined.

(** ** Pages of a listing *)

Lemma toInteger_inject (q : Q) (z : Z) :
  q == inject_Z z -> Js.toInteger q = z.
Proof.
  intros E. unfold Js.toInteger.
  destruct (Qle_bool 0 q); rewrite E; [apply Qfloor_Z | apply Qceiling_Z].
Qed.

(** [slice] between two non-negative integral bounds. *)
Lemma Array_slice_window {A : Type} (l : list A) (a n : nat) (qa qb : Q) :
  qa == inject_Z (Z.of_nat a) -> qb == inject_Z (Z.of_nat (a + n)) ->
  Js.Array_slice l qa qb = firstn n (skipn a l).
Proof.
  intros Ea Eb. unfold Js.Array_slice, Js.relativeIndex.
  rewrite (toInteger_inject _ _ Ea), (toInteger_inject _ _ Eb).
  destruct (Z.ltb_spec (Z.of_nat a) 0) as [H|_]; [lia|].
  destruct (Z.ltb_spec (Z.of_nat (a + n)) 0) as [H|_]; [lia|].
  destruct (Nat.le_gt_cases (List.length l) a) as [Hl|Hl].
  - rewrite (skipn_all2 l Hl), firstn_nil.
    replace (Z.to_nat (Z.min (Z.of_nat a) (Z.of_nat (List.length l))))
      with (List.length l) by lia.
    now rewrite skipn_all, firstn_nil.
  - replace (Z.to_nat (Z.min (Z.of_nat a) (Z.of_nat (List.length l))))
      with a by lia.
    destruct (Nat.le_gt_cases (a + n) (List.length l)) as [Hn|Hn].
    + f_equal. lia.
    + replace (Z.to_nat _) with (List.length l - a)%nat by lia.
      rewrite !firstn_all2; [reflexivity | |]; rewrite length_skipn; lia.
Qed.

Lemma Qle_bool_inject (a b : Z) :
  Qle_bool (inject_Z a) (inject_Z b) = (a <=? b)%Z.
Proof.
  unfold Qle_bool, inject_Z. cbn [Qnum Qden]. now rewrite !Z.mul_1_r.
Qed.

Lemma clamp_in_range (k tp : Z) :
  (1 <= k <= tp)%Z ->
  Js.Math_min (Js.Math_max (inject_Z k) 1) (inject_Z tp) = inject_Z k.
Proof.
  intros [H1 H2]. unfold Js.Math_max, Js.Math_min.
  change 1 with (inject_Z 1). rewrite Qle_bool_inject.
  destruct (Z.leb_spec k 1) as [L|L].
  - assert (k = 1%Z) by lia. subst k. rewrite Qle_bool_inject.
    destruct (Z.leb_spec 1 tp); [reflexivity | lia].
  - rewrite Qle_bool_inject.
    destruct (Z.leb_spec k tp); [reflexivity | lia].
Qed.

(** The page count is the ceiling of the quotient. *)
Lemma Math_ceil_quotient (t n : Z) :
  (0 < n)%Z ->
  let c := Js.Math_ceil (inject_Z t / inject_Z n) in
  (t <= c * n)%Z /\ ((c - 1) * n < t)%Z.
Proof.
  intros Hn c. unfold Js.Math_ceil in c.
  set (x := inject_Z t / inject_Z n) in *.
  assert (HN : 0 < inject_Z n)
    by (change 0 with (inject_Z 0); now rewrite <- Zlt_Qlt).
  assert (Hx : inject_Z t == x * inject_Z n)
    by (unfold x; field; lra).
  split.
  - rewrite Zle_Qle, inject_Z_mult, Hx.
    apply Qmult_le_compat_r; [apply Qle_ceiling | lra].
  - rewrite Zlt_Qlt, inject_Z_mult, Hx.
    apply Qmult_lt_compat_r; [exact HN | apply Qceiling_lt].
Qed.

Lemma concat_pages {A : Type} (n m : nat) :
  forall l : list A,
    (List.length l <= m * n)%nat ->
    List.concat (map (fun k => firstn n (skipn (k * n) l)) (seq 0 m)) = l.
Proof.
  induction m as [|m IH]; intros l H.
  - destruct l; [reflexivity | simpl in H; lia].
  - cbn [seq map List.concat]. rewrite <- seq_shift, map_map.
    transitivity (firstn n l ++ skipn n l); [|apply firstn_skipn].
    f_equal.
    rewrite <- (IH (skipn n l)) by (rewrite length_skipn; lia).
    f_equal. apply map_ext. intros k.
    rewrite skipn_skipn. do 2 f_equal. lia.
Qed.

Section Pages.

Variable localeCompare : string -> string -> Z.
Variables (st : Z) (text : option string) (resp : ProductsResponseDto).
Variables (F : option ProductFilters) (s : option ProductSort).

Lemma page_size_kept (n : nat) :
  (1 <= n)%nat ->
  (if Qltb 0 (inject_Z (Z.of_nat n)) then inject_Z (Z.of_nat n)
   else DEFAULT_PAGE_SIZE) = inject_Z (Z.of_nat n).
Proof.
  intros H.
  assert (L : Qltb 0 (inject_Z (Z.of_nat n)) = true).
  { apply Qltb_lt. change 0 with (inject_Z 0). rewrite <- Zlt_Qlt. lia. }
  now rewrite L.
Qed.

Lemma window_bounds (n k : nat) :
  (1 <= k)%nat ->
  (inject_Z (Z.of_nat k) - 1) * inject_Z (Z.of_nat n)
    == inject_Z (Z.of_nat ((k - 1) * n)) /\
  (inject_Z (Z.of_nat k) - 1) * inject_Z (Z.of_nat n) + inject_Z (Z.of_nat n)
    == inject_Z (Z.of_nat ((k - 1) * n + n)).
Proof.
  intros H.
  rewrite Nat2Z.inj_add, Nat2Z.inj_mul, Nat2Z.inj_sub by exact H.
  rewrite inject_Z_plus, inject_Z_mult.
  unfold Z.sub. rewrite inject_Z_plus, inject_Z_opp.
  change (inject_Z (Z.of_nat 1)) with 1. split; ring.
Qed.

Lemma listingPage_pages (n k : nat) :
  (1 <= n)%nat ->
  pagesOf (listingPage localeCompare (answers st text resp) F s n k)
  = Z.to_nat
      (Z.max 1
         (Js.Math_ceil
            (inject_Z (Z.of_nat (List.length (sortedRecords localeCompare resp F s)))
             / inject_Z (Z.of_nat n)))).
Proof.
  intros Hn. unfold listingPage, getProductsPaginated, pagesOf.
  cbn [answers getAllProducts fetchProductsFromDummyJson fetchJson await
       filters sort opt_page opt_pageSize Js.nullish totalPages].
  now rewrite (page_size_kept n Hn).
Qed.

Lemma listingPage_items (n k : nat) :
  (1 <= n)%nat -> (1 <= k)%nat ->
  (k <= pagesOf (listingPage localeCompare (answers st text resp) F s n 1))%nat ->
  itemsOf (listingPage localeCompare (answers st text resp) F s n k)
  = map toProductListItem (firstn n (skipn ((k - 1) * n) (sortedRecords localeCompare resp F s))).
Proof.
  intros Hn Hk Htp. rewrite (listingPage_pages n 1 Hn) in Htp.
  unfold listingPage, getProductsPaginated, itemsOf.
  cbn [answers getAllProducts fetchProductsFromDummyJson fetchJson await
       filters sort opt_page opt_pageSize Js.nullish items].
  rewrite (page_size_kept n Hn).
  fold (sortedRecords localeCompare resp F s).
  rewrite clamp_in_range by lia.
  destruct (window_bounds n k Hk) as [Ea Eb].
  now rewrite (Array_slice_window (sortedRecords localeCompare resp F s) _ _ _ _ Ea Eb).
Qed.

Lemma pages_cover (n : nat) :
  (1 <= n)%nat ->
  let tp := pagesOf (listingPage localeCompare (answers st text resp) F s n 1) in
  (1 <= tp)%nat /\
  (List.length (sortedRecords localeCompare resp F s) <= tp * n)%nat /\
  (sortedRecords localeCompare resp F s <> [] -> ((tp - 1) * n < List.length (sortedRecords localeCompare resp F s))%nat).
Proof.
  intros Hn tp. unfold tp. rewrite (listingPage_pages n 1 Hn).
  destruct (Math_ceil_quotient (Z.of_nat (List.length (sortedRecords localeCompare resp F s)))
              (Z.of_nat n)) as [C1 C2]; [lia|].
  set (c := Js.Math_ceil _) in *.
  split; [lia|]. split; [nia|].
  intros Hne.
  assert (0 < List.length (sortedRecords localeCompare resp F s))%nat
    by (destruct (sortedRecords localeCompare resp F s); [now elim Hne | simpl; lia]).
  nia.
Qed.

(** X5: with [n >= 1] records per page, page [k] of a listing, for [k]
    from 1 to the page count, holds the records at positions
    [(k-1)*n .. k*n-1] of the sorted filtered records: at most [n] of
    them, and at least one unless there is no record at all. *)
Theorem listing_page_window (n k : nat) :
  (1 <= n)%nat -> (1 <= k)%nat ->
  (k <= pagesOf (listingPage localeCompare (answers st text resp) F s n 1))%nat ->
  let page := listingPage localeCompare (answers st text resp) F s n k in
  itemsOf page
    = map toProductListItem (firstn n (skipn ((k - 1) * n) (sortedRecords localeCompare resp F s))) /\
  (List.length (itemsOf page) <= n)%nat /\
  (sortedRecords localeCompare resp F s <> [] -> itemsOf page <> []).
Proof.
  intros Hn Hk Htp page. unfold page.
  rewrite (listingPage_items n k Hn Hk Htp).
  split; [reflexivity|]. split.
  - rewrite length_map, length_firstn. lia.
  - intros Hne E. apply (f_equal (@List.length _)) in E.
    rewrite length_map, length_firstn, length_skipn in E. simpl in E.
    destruct (pages_cover n Hn) as [_ [_ P]]. specialize (P Hne).
    nia.
Qed.

(** X6: the pages of a listing, read from page 1 to the last, are the
    sorted filtered records, each exactly once and in order; the page count
    does not depend on the page requested. *)
Theorem listing_pages_partition (n : nat) :
  (1 <= n)%nat ->
  let page k := listingPage localeCompare (answers st text resp) F s n k in
  (forall k, pagesOf (page k) = pagesOf (page 1%nat)) /\
  List.concat (map (fun k => itemsOf (page k)) (seq 1 (pagesOf (page 1%nat))))
  = map toProductListItem (sortedRecords localeCompare resp F s).
Proof.
  intros Hn page. unfold page. split.
  - intros k. now rewrite !listingPage_pages.
  - destruct (pages_cover n Hn) as [_ [P _]].
    set (tp := pagesOf _) in *.
    rewrite <- (concat_pages n tp (map toProductListItem (sortedRecords localeCompare resp F s)))
      by (rewrite length_map; exact P).
    rewrite <- seq_shift, map_map. f_equal.
    apply map_ext_in. intros k Hk. apply in_seq in Hk.
    rewrite listingPage_items by (try exact Hn; fold tp; lia).
    rewrite skipn_map, firstn_map. do 3 f_equal. lia.
Qed.

End Pages.

Lemma listing_page_window_witness :
  let page :=
    listingPage caseInsensitiveCompare (answers 200 None
      {| products := map toDto mockProducts; resp_total := 4;
         skip := 0; limit := 100 |}) None (Some price_asc) 3 2 in
  itemsOf page = [toProductListItem macbook] /\
  (List.length (itemsOf page) <= 3)%nat.
Proof.
  intros page.
  destruct (listing_page_window caseInsensitiveCompare 200 None
              {| products := map toDto mockProducts; resp_total := 4;
                 skip := 0; limit := 100 |} None (Some price_asc) 3 2)
    as [H1 [H2 _]].
  - lia.
  - lia.
  - vm_compute. lia.
  - split; [exact H1 | exact H2].
Defined.

Lemma listing_pages_partition_witness :
  let page k :=
    listingPage caseInsensitiveCompare (answers 200 None
      {| products := map toDto mockProducts; resp_total := 4;
         skip := 0; limit := 100 |}) None (Some price_asc) 3 k in
  List.concat (map (fun k => itemsOf (page k)) (seq 1 (pagesOf (page 1%nat))))
  = map toProductListItem [galaxy; iphone; dell; macbook].
Proof.
  intros page.
  assert (H : (1 <= 3)%nat) by lia.
  exact (proj2 (listing_pages_partition caseInsensitiveCompare 200 None
                  {| products := map toDto mockProducts; resp_total := 4;
                     skip := 0; limit := 100 |} None (Some price_asc) 3 H)).
Defined.

(** ** Asking again for the page that was served *)

Lemma Qle_bool_refl (q : Q) : Qle_bool q q = true.
Proof. apply Qle_bool_iff. apply Qle_refl. Qed.

Lemma clamp_idempotent (p : Q) (tp : Z) :
  (1 <= tp)%Z ->
  let c := Js.Math_min (Js.Math_max p 1) (inject_Z tp) in
  Js.Math_min (Js.Math_max c 1) (inject_Z tp) = c.
Proof.
  intros Htp c. unfold c, Js.Math_max, Js.Math_min.
  assert (T1 : Qle_bool 1 (inject_Z tp) = true).
  { change 1 with (inject_Z 1). rewrite Qle_bool_inject.
    now apply Z.leb_le. }
  destruct (Qle_bool p 1) eqn:E1.
  - rewrite T1. rewrite Qle_bool_refl. now rewrite T1.
  - destruct (Qle_bool p (inject_Z tp)) eqn:E2.
    + now rewrite E1, E2.
    + change 1 with (inject_Z 1). rewrite Qle_bool_inject.
      destruct (Z.leb_spec tp 1) as [L|L].
      * assert (tp = 1%Z) by lia. subst tp. reflexivity.
      * now rewrite Qle_bool_refl.
Qed.

Lemma safePageSize_positive (ps : Q) :
  Qltb 0 (if Qltb 0 ps then ps else DEFAULT_PAGE_SIZE) = true.
Proof.
  destruct (Qltb 0 ps) eqn:E; [exact E | reflexivity].
Qed.

Section Rerequest.

Variable localeCompare : string -> string -> Z.

(** X7: the page and page size a listing reports are a fixed point of the
    normalisation: requesting them again, with the same criteria and
    order, returns the same listing. *)
Theorem getProductsPaginated_rerequest
  (st : Z) (text : option string) (resp : ProductsResponseDto)
  (opts : GetProductsOptions) (r : PaginatedResult ProductListItem) :
  getProductsPaginated localeCompare (answers st text resp) opts = Resolved r ->
  getProductsPaginated localeCompare (answers st text resp)
    {| filters := filters opts; sort := sort opts;
       opt_page := Some (page r); opt_pageSize := Some (pageSize r) |}
  = Resolved r.
Proof.
  intros H. unfold getProductsPaginated in *.
  cbn [answers getAllProducts fetchProductsFromDummyJson fetchJson await
       filters sort opt_page opt_pageSize Js.nullish] in *.
  inversion H as [Hr]. clear H.
  cbn [page pageSize].
  set (sorted := applySort _ _ _).
  set (sps := if Qltb 0 _ then _ else DEFAULT_PAGE_SIZE).
  assert (Hs : (if Qltb 0 sps then sps else DEFAULT_PAGE_SIZE) = sps)
    by (unfold sps; now rewrite safePageSize_positive).
  rewrite Hs.
  set (tp := Z.max 1 _).
  rewrite (clamp_idempotent _ tp) by (unfold tp; lia).
  reflexivity.
Qed.

End Rerequest.

Lemma getProductsPaginated_rerequest_witness :
  let net := answers 200 None
    {| products := map toDto mockProducts; resp_total := 4;
       skip := 0; limit := 100 |} in
  let served :=
    {| items := map toProductListItem mockProducts; total := 4;
       page := 1; pageSize := 20; totalPages := 1 |} in
  getProductsPaginated caseInsensitiveCompare net
    {| filters := None; sort := None;
       opt_page := Some 7; opt_pageSize := Some (-3) |} = Resolved served /\
  getProductsPaginated caseInsensitiveCompare net
    {| filters := None; sort := None;
       opt_page := Some 1; opt_pageSize := Some 20 |} = Resolved served.
Proof.
  intros net served. split; [reflexivity|].
  apply (getProductsPaginated_rerequest caseInsensitiveCompare 200 None _
           {| filters := None; sort := None;
              opt_page := Some 7; opt_pageSize := Some (-3) |} served).
  reflexivity.
Defined.

(** ** Sums and averages *)











(** ** Aggregates do not depend on the order of the records *)





(** ** Low stock *)

(** X10: the low-stock count never exceeds the number of records, and
    raising the threshold never lowers it. *)
Theorem computeLowStockCount_monotone (l : list Product) (t t' : Q) :
  t <= t' ->
  (computeLowStockCount l (Some t) <= computeLowStockCount l (Some t'))%nat /\
  (computeLowStockCount l (Some t') <= List.length l)%nat.
Proof.
  intros H. unfold computeLowStockCount. cbn [Js.nullish]. split.
  - induction l as [|p l IH]; [simpl; lia|]. cbn [filter].
    destruct (Qltb (stock p) t) eqn:E.
    + apply Qltb_lt in E.
      assert (E' : Qltb (stock p) t' = true) by (apply Qltb_lt; lra).
      rewrite E'. simpl. lia.
    + destruct (Qltb (stock p) t'); simpl; lia.
  - apply filter_length_le.
Qed.

Lemma computeLowStockCount_monotone_witness :
  10 <= 25 /\
  (computeLowStockCount mockProducts (Some 10%Q)
   <= computeLowStockCount mockProducts (Some 25%Q))%nat /\
  (computeLowStockCount mockProducts (Some 25%Q)
   <= List.length mockProducts)%nat.
Proof.
  assert (H : 10 <= 25) by lra.
  split; [exact H|].
  exact (computeLowStockCount_monotone mockProducts 10 25 H).
Defined.

(** ** Top-rated products *)

Lemma StronglySorted_app_inv {A : Type} (R : A -> A -> Prop) (l1 l2 : list A) :
  StronglySorted R (l1 ++ l2) ->
  StronglySorted R l1 /\ StronglySorted R l2 /\
  (forall a b, In a l1 -> In b l2 -> R a b).
Proof.
  induction l1 as [|x l1 IH]; simpl; intros H.
  - split; [constructor|]. split; [exact H|]. intros a b [].
  - inversion H as [|? ? Hs Hall]; subst.
    destruct (IH Hs) as [S1 [S2 S3]].
    apply Forall_app in Hall. destruct Hall as [A1 A2].
    split; [now constructor|]. split; [exact S2|].
    intros a b [<-|Ha] Hb.
    + rewrite Forall_forall in A2. now apply A2.
    + now apply S3.
Qed.

Lemma StronglySorted_map {A B : Type} (f : A -> B) (R : A -> A -> Prop)
  (R' : B -> B -> Prop) (l : list A) :
  (forall a b, R a b -> R' (f a) (f b)) ->
  StronglySorted R l -> StronglySorted R' (map f l).
Proof.
  intros HR. induction 1 as [|x l Hs IH Hall]; simpl; constructor.
  - exact IH.
  - apply Forall_map. eapply Forall_impl; [|exact Hall].
    intros y. apply HR.
Qed.

(** X11: the top-rated list is the projection of the [n] best-rated
    records ([n] is 5 unless a limit is given), fewer when there are fewer
    records, in descending order of rating; no record left out is rated
    higher than a record of the list. *)
Theorem computeTopRatedProducts_best (l : list Product) (limit : option nat) :
  let n := Js.nullish limit 5%nat in
  let top :=
    computeTopRatedProducts l
      (option_map (fun m => inject_Z (Z.of_nat m)) limit) in
  exists chosen rest,
    Permutation l (chosen ++ rest) /\
    top = map toProductListItem chosen /\
    List.length top = Nat.min n (List.length l) /\
    StronglySorted (fun a b => li_rating b <= li_rating a) top /\
    (forall a b, In a chosen -> In b rest -> rating b <= rating a).
Proof.
  intros n top. unfold top, computeTopRatedProducts.
  set (cmp := fun a b : Product => rating b - rating a).
  set (sorted := Js.Array_sort cmp l).
  assert (Hs : StronglySorted (before cmp) sorted).
  { apply Array_sort_sorted.
    - intros a b. unfold before, cmp.
      destruct (Qlt_le_dec (rating a) (rating b)); [right | left]; lra.
    - intros a b c. unfold before, cmp. lra. }
  assert (Hw : Js.Array_slice sorted 0
                 (Js.nullish (option_map (fun m => inject_Z (Z.of_nat m)) limit) 5)
               = firstn n sorted).
  { apply (Array_slice_window sorted 0 n); [reflexivity|].
    unfold n. destruct limit; reflexivity. }
  rewrite Hw.
  rewrite <- (firstn_skipn n sorted) in Hs.
  destruct (StronglySorted_app_inv _ _ _ Hs) as [S1 [_ S3]].
  exists (firstn n sorted), (skipn n sorted).
  split; [rewrite firstn_skipn; apply Array_sort_perm|].
  split; [reflexivity|]. split.
  - rewrite length_map, length_firstn. unfold sorted.
    now rewrite Array_sort_length.
  - split.
    + apply StronglySorted_map with (R := before cmp); [|exact S1].
      intros a b. unfold before, cmp. simpl. lra.
    + intros a b Ha Hb. specialize (S3 a b Ha Hb).
      unfold before, cmp in S3. lra.
Qed.

(** ** Stock by category *)

Lemma Map_get_set {V : Type} (m : Js.Map V) (k k' : string) (v : V) :
  Js.Map_get (Js.Map_set m k v) k'
  = if String.eqb k k' then Some v else Js.Map_get m k'.
Proof.
  induction m as [|[k0 v0] m IH]; [reflexivity|]. cbn [Js.Map_set].
  destruct (String.eqb_spec k0 k) as [->|N]; cbn [Js.Map_get].
  - now destruct (String.eqb k k').
  - rewrite IH. destruct (String.eqb_spec k k') as [E|N']; [|reflexivity].
    subst k'. now rewrite (proj2 (String.eqb_neq k0 k) N).
Qed.

Lemma keys_set {V : Type} (m : Js.Map V) (k : string) (v : V) :
  map fst (Js.Map_set m k v)
  = match Js.Map_get m k with
    | Some _ => map fst m
    | None => map fst m ++ [k]
    end.
Proof.
  induction m as [|[k0 v0] m IH]; [reflexivity|].
  cbn [Js.Map_set Js.Map_get].
  destruct (String.eqb k0 k); [reflexivity|].
  cbn [map fst]. rewrite IH. now destruct (Js.Map_get m k).
Qed.

Lemma Qsum_set (m : Js.Map Q) (k : string) (v : Q) :
  Qsum (map snd (Js.Map_set m k v))
  == Qsum (map snd m) - Js.nullish (Js.Map_get m k) 0 + v.
Proof.
  induction m as [|[k0 v0] m IH]; [simpl; ring|].
  cbn [Js.Map_set Js.Map_get].
  destruct (String.eqb k0 k); cbn [map snd Qsum fold_right Js.nullish].
  - fold (Qsum (map snd m)). ring.
  - fold (Qsum (map snd m)) (Qsum (map snd (Js.Map_set m k v))).
    rewrite IH. ring.
Qed.

Lemma occurrences_In (c : string) (l : list Product) :
  occurrences c l <> 0%nat <-> In c (map category l).
Proof.
  induction l as [|p l IH]; [simpl; tauto|].
  rewrite occurrences_cons. cbn [map In].
  destruct (String.eqb_spec (category p) c) as [E|N].
  - split; [auto | lia].
  - rewrite <- IH. simpl. split; [auto|]. intros [E|H]; [contradiction | exact H].
Qed.

Lemma ofCategory_snoc (c : string) (l : list Product) (p : Product) :
  ofCategory c (l ++ [p])
  = ofCategory c l ++ if String.eqb (category p) c then [p] else [].
Proof.
  unfold ofCategory. rewrite filter_app. simpl.
  now destruct (String.eqb (category p) c).
Qed.

Lemma map_pair_id {A B : Type} (l : list (A * B)) :
  map (fun '(a, b) => (a, b)) l = l.
Proof.
  induction l as [|[a b] l IH]; [reflexivity|]. simpl. now rewrite IH.
Qed.

Lemma computeStockByCategory_totalled (l : list Product) :
  totalled l (computeStockByCategory l).
Proof.
  unfold computeStockByCategory. rewrite map_pair_id.
  induction l as [|p l [G [Hs Ht]]] using rev_ind.
  - split; [reflexivity|]. split; [constructor | reflexivity].
  - rewrite fold_left_app. cbn [fold_left].
    match goal with
    | |- context [fold_left ?f l ?i] => set (m := fold_left f l i) in *
    end.
    assert (Hkey : forall k, In k (map fst m) -> occurrences k l <> 0%nat).
    { intros k Hk. apply Map_get_key in Hk. destruct Hk as [v Hv].
      rewrite G in Hv. destruct (occurrences k l); [discriminate | lia]. }
    split; [|split].
    + intros c. rewrite Map_get_set, occurrences_snoc, G.
      unfold computeTotalStock, reduce_sum. rewrite ofCategory_snoc.
      destruct (String.eqb_spec (category p) c) as [<-|N].
      * rewrite fold_left_app. cbn [fold_left].
        destruct (occurrences (category p) l) eqn:E.
        -- apply length_zero_iff_nil in E. unfold ofCategory. rewrite E.
           reflexivity.
        -- replace (S n + 1 =? 0)%nat with false
             by (symmetry; apply Nat.eqb_neq; lia).
           reflexivity.
      * rewrite Nat.add_0_r, app_nil_r. exact (G c).
    + assert (K : map (fun k => firstSeen k (l ++ [p])) (map fst m)
                  = map (fun k => firstSeen k l) (map fst m)).
      { apply map_ext_in. intros k Hk. apply firstSeen_present.
        now apply Hkey. }
      rewrite keys_set, G.
      destruct (occurrences (category p) l =? 0)%nat eqn:E.
      * rewrite map_app, K. apply StronglySorted_snoc; [exact Hs|].
        apply Nat.eqb_eq in E.
        cbn [map]. rewrite (firstSeen_absent _ _ _ E eq_refl).
        apply Forall_forall. intros x Hx.
        apply in_map_iff in Hx. destruct Hx as [k [<- Hk]].
        apply (firstSeen_present k l []). now apply Hkey.
      * now rewrite K.
    + rewrite Qsum_set, Ht.
      unfold computeTotalStock, reduce_sum. rewrite fold_left_app.
      cbn [fold_left]. ring.
Qed.

(** X12: the stock-by-category list has one entry for each category
    present among the records and no other, in the order in which the
    categories are first seen; each entry carries the total stock of the
    records of its category, and the entries add up to the total stock. *)
Theorem computeStockByCategory_spec (l : list Product) :
  let r := computeStockByCategory l in
  (forall c, In c (map fst r) <-> In c (map category l)) /\
  NoDup (map fst r) /\
  StronglySorted lt (map (fun c => firstSeen c l) (map fst r)) /\
  (forall c t, In (c, t) r -> t = computeTotalStock (ofCategory c l)) /\
  Qsum (map snd r) == computeTotalStock l.
Proof.
  intros r. destruct (computeStockByCategory_totalled l) as [G [Hs Ht]].
  fold r in G, Hs, Ht.
  pose proof (StronglySorted_lt_NoDup _ _ Hs) as ND.
  split; [|split; [exact ND|split; [exact Hs|split; [|exact Ht]]]].
  - intros c. rewrite <- occurrences_In. split.
    + intros Hk. apply Map_get_key in Hk. destruct Hk as [v Hv].
      rewrite G in Hv. destruct (occurrences c l); [discriminate | lia].
    + intros Hc. apply Nat.eqb_neq in Hc. specialize (G c).
      rewrite Hc in G. apply Map_get_In in G.
      apply in_map_iff. now exists (c, computeTotalStock (ofCategory c l)).
  - intros c t Hin. apply (In_Map_get _ _ _ ND) in Hin. rewrite G in Hin.
    destruct (occurrences c l =? 0)%nat; [discriminate|].
    now inversion Hin.
Qed.

(** ** Most common category *)

Lemma computeMostCommonCategory_first_greatest_witness :
  mockProducts <> [] /\
  exists c n,
    scanMax (countCategories mockProducts) = (Some c, n) /\
    n = occurrences c mockProducts /\
    (0 < n)%nat /\
    (forall c', (occurrences c' mockProducts <= n)%nat) /\
    (forall c', occurrences c' mockProducts = n ->
       (firstSeen c mockProducts <= firstSeen c' mockProducts)%nat) /\
    computeMostCommonCategory mockProducts
    = if Js.truthy c then Some (c, n) else None.
Proof.
  assert (H : mockProducts <> []) by discriminate.
  split; [exact H|].
  exact (computeMostCommonCategory_first_greatest mockProducts H).
Defined.

(** ** The fetch layer *)



(** ** The single-product route *)


(** ** Categories *)

Lemma Set_has_In (s : list string) (x : string) :
  Js.Set_has s x = true <-> In x s.
Proof.
  unfold Js.Set_has. rewrite existsb_exists. split.
  - intros [y [Hy E]]. apply String.eqb_eq in E. now subst.
  - intros H. exists x. split; [exact H | apply String.eqb_refl].
Qed.

Lemma Set_add_spec (s : list string) (x : string) :
  NoDup s ->
  NoDup (Js.Set_add s x) /\ (forall c, In c (Js.Set_add s x) <-> In c s \/ c = x).
Proof.
  intros ND. unfold Js.Set_add. destruct (Js.Set_has s x) eqn:E.
  - apply Set_has_In in E. split; [exact ND|].
    intros c. split; [auto|]. intros [H | ->]; assumption.
  - assert (N : ~ In x s).
    { intros H. apply Set_has_In in H. congruence. }
    split.
    + apply NoDup_app; [exact ND | repeat constructor; intros [] |].
      intros a Ha [<- | []]. contradiction.
    + intros c. rewrite in_app_iff. simpl. split.
      * intros [H|[H|[]]]; auto.
      * intros [H|H]; auto.
Qed.

Lemma string_length_zero (s : string) :
  (0 <? String.length s)%nat = false <-> s = EmptyString.
Proof.
  destruct s; simpl; split; auto; discriminate.
Qed.

Lemma collectCategory_spec (acc : list string) (p : Product) :
  NoDup acc ->
  NoDup (collectCategory acc p) /\
  (forall c, In c (collectCategory acc p)
             <-> In c acc \/ (Js.trim (category p) = c /\ c <> EmptyString)).
Proof.
  intros ND. unfold collectCategory.
  destruct (Js.truthy (category p)) eqn:T.
  - destruct (0 <? String.length (Js.trim (category p)))%nat eqn:L.
    + destruct (Set_add_spec acc (Js.trim (category p)) ND) as [N M].
      split; [exact N|]. intros c. rewrite M. split.
      * intros [H | ->]; [now left | right]. split; [reflexivity|].
        intros E. rewrite E in L. discriminate.
      * intros [H|[H _]]; [now left | now right].
    + apply string_length_zero in L. split; [exact ND|].
      intros c. split; [auto|]. intros [H|[H N]]; [exact H|].
      elim N. now rewrite <- H.
  - split; [exact ND|]. intros c. split; [auto|].
    intros [H|[H N]]; [exact H|].
    destruct (category p); [|discriminate]. simpl in H.
    elim N. now rewrite <- H.
Qed.

Lemma collect_fold (l : list Product) :
  forall acc, NoDup acc ->
    NoDup (fold_left collectCategory l acc) /\
    (forall c, In c (fold_left collectCategory l acc)
               <-> In c acc \/
                   exists p, In p l /\ Js.trim (category p) = c /\
                             c <> EmptyString).
Proof.
  induction l as [|p l IH]; intros acc ND; simpl.
  - split; [exact ND|]. intros c. split; [auto|].
    intros [H|[q [[] _]]]. exact H.
  - destruct (collectCategory_spec acc p ND) as [N M].
    destruct (IH _ N) as [N' M']. split; [exact N'|].
    intros c. rewrite M', M. split.
    + intros [[H|[H1 H2]]|[q [Hq H]]]; auto.
      * right. exists p. auto.
      * right. exists q. auto.
    + intros [H|[q [[<- | Hq] H]]]; auto.
      right. now exists q.
Qed.

Lemma extractUniqueCategories_In
  (localeCompare : string -> string -> Z) (l : list Product) (c : string) :
  In c (extractUniqueCategories localeCompare l)
  <-> c <> EmptyString /\ exists p, In p l /\ Js.trim (category p) = c.
Proof.
  unfold extractUniqueCategories.
  destruct l as [|p0 l0] eqn:El.
  - simpl. split; [tauto|]. intros [_ [p [[] _]]].
  - cbn [List.length Nat.eqb]. rewrite <- El. clear El p0 l0.
    destruct (collect_fold l [] (NoDup_nil _)) as [_ M].
    set (sorted := Js.Array_sort _ _).
    assert (P : Permutation (fold_left collectCategory l []) sorted)
      by apply Array_sort_perm.
    split.
    + intros H. apply (Permutation_in _ (Permutation_sym P)) in H.
      apply M in H. destruct H as [[]|[p [Hp [E Hc]]]].
      split; [exact Hc | now exists p].
    + intros [Hc [p [Hp E]]]. apply (Permutation_in _ P).
      apply M. right. now exists p.
Qed.

(** X15: the categories returned are the distinct non-empty trimmed
    categories of the records: each one once, none that no record has. *)
Theorem extractUniqueCategories_members
  (localeCompare : string -> string -> Z) (l : list Product) :
  NoDup (extractUniqueCategories localeCompare l) /\
  (forall c, In c (extractUniqueCategories localeCompare l)
             <-> c <> EmptyString /\
                 exists p, In p l /\ Js.trim (category p) = c).
Proof.
  split; [|intros c; apply extractUniqueCategories_In].
  unfold extractUniqueCategories.
  destruct (List.length l =? 0)%nat; [constructor|].
  destruct (collect_fold l [] (NoDup_nil _)) as [N _].
  apply (Permutation_NoDup (Array_sort_perm _ _)). exact N.
Qed.

Lemma trimEnd_cons (c d : ascii) (s rest : string) :
  Js.trimEnd s = String d rest ->
  Js.trimEnd (String c s) = String c (String d rest).
Proof. intros E. cbn [Js.trimEnd]. now rewrite E. Qed.

Lemma trimEnd_idempotent (s : string) :
  Js.trimEnd (Js.trimEnd s) = Js.trimEnd s.
Proof.
  induction s as [|c s IH]; [reflexivity|]. cbn [Js.trimEnd].
  destruct (Js.trimEnd s) as [|d rest] eqn:E.
  - destruct (Js.isWhiteSpace c) eqn:W; [reflexivity|].
    cbn [Js.trimEnd]. now rewrite W.
  - now apply trimEnd_cons.
Qed.

Lemma trimStart_trimEnd (s : string) :
  Js.trimStart (Js.trimEnd (Js.trimStart s)) = Js.trimEnd (Js.trimStart s).
Proof.
  induction s as [|c s IH]; [reflexivity|]. cbn [Js.trimStart].
  destruct (Js.isWhiteSpace c) eqn:W; [exact IH|].
  cbn [Js.trimEnd]. destruct (Js.trimEnd s); rewrite ?W; simpl; now rewrite W.
Qed.

Lemma trim_idempotent (s : string) : Js.trim (Js.trim s) = Js.trim s.
Proof.
  unfold Js.trim. now rewrite trimStart_trimEnd, trimEnd_idempotent.
Qed.

(** X16: every category returned is already trimmed, and it is a valid
    category name exactly when it is at most 100 characters long. *)
Theorem extractUniqueCategories_valid
  (localeCompare : string -> string -> Z) (l : list Product) (c : string) :
  In c (extractUniqueCategories localeCompare l) ->
  Js.trim c = c /\
  isValidCategory (Some c) = (String.length c <=? 100)%nat.
Proof.
  intros H.
  apply extractUniqueCategories_In in H.
  destruct H as [Hc [p [_ E]]].
  assert (T : Js.trim c = c) by (rewrite <- E; apply trim_idempotent).
  split; [exact T|]. unfold isValidCategory. rewrite T.
  destruct c; [now elim Hc | reflexivity].
Qed.

Lemma extractUniqueCategories_valid_witness :
  In "laptops"%string
    (extractUniqueCategories caseInsensitiveCompare mockProducts) /\
  Js.trim "laptops" = "laptops"%string /\
  isValidCategory (Some "laptops"%string)
  = (String.length "laptops" <=? 100)%nat.
Proof.
  assert (H : In "laptops"%string
                (extractUniqueCategories caseInsensitiveCompare mockProducts))
    by (vm_compute; auto).
  split; [exact H|].
  exact (extractUniqueCategories_valid caseInsensitiveCompare
           mockProducts "laptops" H).
Defined.

Section CategoriesSorted.

Variable localeCompare : string -> string -> Z.
Hypothesis localeCompare_antisym :
  forall a b, Z.sgn (localeCompare b a) = (- Z.sgn (localeCompare a b))%Z.
Hypothesis localeCompare_trans :
  forall a b c, (localeCompare a b <= 0)%Z -> (localeCompare b c <= 0)%Z ->
                (localeCompare a c <= 0)%Z.

(** X17: the categories are returned in the order of the collation: no
    category comes after one that follows it. *)
Theorem extractUniqueCategories_sorted (l : list Product) :
  StronglySorted (fun a b => (localeCompare a b <= 0)%Z)
    (extractUniqueCategories localeCompare l).
Proof.
  unfold extractUniqueCategories.
  destruct (List.length l =? 0)%nat; [constructor|].
  apply StronglySorted_impl
    with (R := before (fun a b => inject_Z (localeCompare a b))).
  - intros a b. unfold before. apply inject_Z_nonpos.
  - apply Array_sort_sorted.
    + intros a b. unfold before. rewrite !inject_Z_nonpos.
      now apply localeCompare_total.
    + intros a b c. unfold before. rewrite !inject_Z_nonpos.
      apply localeCompare_trans.
Qed.

End CategoriesSorted.

Lemma extractUniqueCategories_sorted_witness :
  (forall a b, Z.sgn (caseInsensitiveCompare b a)
               = (- Z.sgn (caseInsensitiveCompare a b))%Z) /\
  (forall a b c, (caseInsensitiveCompare a b <= 0)%Z ->
                 (caseInsensitiveCompare b c <= 0)%Z ->
                 (caseInsensitiveCompare a c <= 0)%Z) /\
  StronglySorted (fun a b => (caseInsensitiveCompare a b <= 0)%Z)
    (extractUniqueCategories caseInsensitiveCompare mockProducts).
Proof.
  split; [exact caseInsensitiveCompare_antisym|].
  split; [exact caseInsensitiveCompare_trans|].
  exact (extractUniqueCategories_sorted caseInsensitiveCompare
           caseInsensitiveCompare_antisym caseInsensitiveCompare_trans
           mockProducts).
Defined.

(** ** Objects and headers *)

Lemma spread_snoc {V : Type} (a b : Js.Map V) (k : string) (v : V) :
  Js.spread a (b ++ [(k, v)]) = Js.Map_set (Js.spread a b) k v.
Proof. unfold Js.spread. now rewrite fold_left_app. Qed.

(** A property of the source, if it has it, wins over the target's. *)
Lemma Map_get_spread {V : Type} (a b : Js.Map V) (k : string) :
  Js.Map_get (Js.spread a b) k
  = match Js.Map_get (Js.spread [] b) k with
    | Some v => Some v
    | None => Js.Map_get a k
    end.
Proof.
  induction b as [|[k0 v0] b IH] using rev_ind; [reflexivity|].
  rewrite !spread_snoc, !Map_get_set.
  destruct (String.eqb k0 k); [reflexivity | exact IH].
Qed.

Lemma Map_set_not_nil {V : Type} (m : Js.Map V) (k : string) (v : V) :
  Js.Map_set m k v <> [].
Proof.
  destruct m as [|[k0 v0] m]; simpl; [discriminate|].
  destruct (String.eqb k0 k); discriminate.
Qed.

Lemma spread_nil_inv {V : Type} (a b : Js.Map V) :
  Js.spread a b = [] -> a = [] /\ b = [].
Proof.
  destruct b as [|[k0 v0] b _] using rev_ind; [now split|].
  rewrite spread_snoc. intros H. now apply Map_set_not_nil in H.
Qed.

Section CorsProperties.

Variables (NODE_ENV ALLOWED_ORIGIN : option string).

Lemma spread_CORS_HEADERS :
  Js.spread [] (CORS_HEADERS NODE_ENV ALLOWED_ORIGIN)
  = CORS_HEADERS NODE_ENV ALLOWED_ORIGIN.
Proof. reflexivity. Qed.


End CorsProperties.

(** ** The request-scoped logger *)

Section LoggerProperties.

Variable V : Type.
Variable NODE_ENV : option string.
Variable now : string.

(** X19: a logger made by [createLogger] writes, for [info], [warn] and
    [error], one line on the matching console method, with the level, the
    message, the time of the call and the error given; [debug] writes a
    line only in development.  The context of a line is the default
    context overridden by the context of the call, key by key, and it is
    left out exactly when both are empty. *)
Theorem createLogger_lines (defaultContext : LogContext V) (message : string)
  (context0 : option (LogContext V)) (err : option JsError) :
  let logger := createLogger V NODE_ENV now defaultContext in
  let merged := mergeContext V defaultContext context0 in
  let field := if (0 <? List.length merged)%nat then Some merged else None in
  info V logger message context0
    = [(console_log, mkLogEntry V now INFO message field None)] /\
  warn V logger message context0
    = [(console_warn, mkLogEntry V now WARN message field None)] /\
  error V logger message err context0
    = [(console_error, mkLogEntry V now ERROR message field err)] /\
  debug V logger message context0
    = (if match NODE_ENV with
          | Some env => String.eqb env "development"
          | None => false
          end
       then [(console_debug, mkLogEntry V now DEBUG message field None)]
       else []) /\
  (forall k, Js.Map_get merged k
             = match Js.Map_get (Js.spread [] (Js.nullish context0 [])) k with
               | Some v => Some v
               | None => Js.Map_get (Js.spread [] defaultContext) k
               end) /\
  (field = None <-> defaultContext = [] /\ Js.nullish context0 [] = []).
Proof.
  intros logger merged field.
  split; [reflexivity|]. split; [reflexivity|].
  split; [destruct err as [[n m s]|]; reflexivity|].
  split; [reflexivity|]. split.
  - intros k. unfold merged, mergeContext. apply Map_get_spread.
  - unfold field. split.
    + destruct merged as [|e m] eqn:E; [|discriminate]. intros _.
      unfold merged, mergeContext in E.
      apply spread_nil_inv in E. destruct E as [E1 E2].
      apply spread_nil_inv in E1. destruct E1 as [_ E1].
      now split.
    + intros [E1 E2]. unfold merged, mergeContext. now rewrite E1, E2.
Qed.

End LoggerProperties.

(** ** The collection routes *)

(** The comparator of an unrecognised sort order returns 0 for every
    pair; the sort then returns the records in their order. *)
Lemma Array_sort_constant {A : Type} (l : list A) :
  Js.Array_sort (fun _ _ => 0) l = l.
Proof.
  induction l as [|x l IH]; [reflexivity|].
  cbn [Js.Array_sort fold_right]. fold (Js.Array_sort (fun _ _ : A => 0) l).
  rewrite IH. now destruct l.
Qed.

Section RouteProperties.

Variable localeCompare : string -> string -> Z.
Variable Number : string -> option Q.
Variable parseInt10 : string -> ParsedInt.
Variables (NODE_ENV ALLOWED_ORIGIN : option string).

Lemma jsonWithCors_cors {T : Type} (data : T)
  (init0 : option (Z + ResponseInit)) (k v : string) :
  In (k, v) (CORS_HEADERS NODE_ENV ALLOWED_ORIGIN) ->
  Js.Map_get (headersOf (jsonWithCors NODE_ENV ALLOWED_ORIGIN data init0)) k
  = Some v.
Proof.
  intros Hin. unfold headersOf, jsonWithCors. cbn [init init_headers Js.nullish].
  rewrite Map_get_spread, spread_CORS_HEADERS.
  simpl in Hin.
  destruct Hin as [E|[E|[E|[E|[]]]]]; inversion E; subst; reflexivity.
Qed.

(** X20: for one answer of the catalog and one query string, the three
    collection routes fail together or succeed together.  When the fetch
    rejects, each answers 502 with its own fixed message, whatever the
    error was.  When it resolves, the listing's total, also reported in its
    pagination object, is the insights' number of products; the listing
    echoes the criteria and the sort parameter it read. *)
Theorem collection_routes_agree (net : FetchOutcome ProductsResponseDto)
  (searchParams : list (string * string)) :
  let products_ :=
    GET_products localeCompare Number parseInt10 NODE_ENV ALLOWED_ORIGIN
      net searchParams in
  let insights_ :=
    GET_insights Number NODE_ENV ALLOWED_ORIGIN net searchParams in
  let categories_ :=
    GET_categories localeCompare NODE_ENV ALLOWED_ORIGIN net in
  (exists e,
     fetchJson net = Rejected e /\
     products_ = jsonWithCors NODE_ENV ALLOWED_ORIGIN
                   (ErrorJson "Failed to fetch products from external API")
                   (Some (inl 502%Z)) /\
     insights_ = jsonWithCors NODE_ENV ALLOWED_ORIGIN
                   (ErrorJson "Failed to compute product insights")
                   (Some (inl 502%Z)) /\
     categories_ = jsonWithCors NODE_ENV ALLOWED_ORIGIN
                     (ErrorJson "Failed to fetch categories")
                     (Some (inl 502%Z))) \/
  (exists resp listing insights,
     fetchJson net = Resolved resp /\
     products_ = jsonWithCors NODE_ENV ALLOWED_ORIGIN (Payload listing) None /\
     insights_ = jsonWithCors NODE_ENV ALLOWED_ORIGIN (Payload insights) None /\
     categories_ = jsonWithCors NODE_ENV ALLOWED_ORIGIN
                     (Payload
                        (extractUniqueCategories localeCompare
                           (map mapDtoToDomain (products resp)))) None /\
     json_total listing = totalProducts insights /\
     pagination_total (json_pagination listing) = totalProducts insights /\
     json_appliedFilters listing = filtersOfQuery Number searchParams /\
     json_sort listing = Js.searchParams_get searchParams "sort").
Proof.
  intros products_ insights_ categories_.
  unfold products_, insights_, categories_, GET_products, GET_insights,
    GET_categories, getProductsPaginated, getProductsInsights,
    getProductsForInsights, getAllProducts, fetchProductsFromDummyJson.
  destruct (fetchJson net) as [resp|e]; cbn [await].
  - right. eexists resp, _, _.
    split; [reflexivity|]. split; [reflexivity|]. split; [reflexivity|].
    split; [reflexivity|].
    cbn [json_total json_pagination pagination_total totalProducts
         json_appliedFilters json_sort].
    split; [apply applySort_length|]. split; [apply applySort_length|].
    split; reflexivity.
  - left. exists e. repeat split.
Qed.

(** X21: every answer of the collection routes, and the answer to a
    preflight request, carries the four CORS headers with their configured
    values. *)
Theorem routes_carry_cors (net : FetchOutcome ProductsResponseDto)
  (searchParams : list (string * string)) (k v : string) :
  In (k, v) (CORS_HEADERS NODE_ENV ALLOWED_ORIGIN) ->
  Js.Map_get
    (headersOf (GET_products localeCompare Number parseInt10 NODE_ENV
                  ALLOWED_ORIGIN net searchParams)) k = Some v /\
  Js.Map_get
    (headersOf (GET_insights Number NODE_ENV ALLOWED_ORIGIN net searchParams))
    k = Some v /\
  Js.Map_get
    (headersOf (GET_categories localeCompare NODE_ENV ALLOWED_ORIGIN net))
    k = Some v /\
  Js.Map_get (headersOf (OPTIONS NODE_ENV ALLOWED_ORIGIN)) k = Some v.
Proof.
  intros Hin. unfold GET_products, GET_insights, GET_categories.
  split; [|split; [|split]].
  - destruct (getProductsPaginated _ _ _); now apply jsonWithCors_cors.
  - destruct (getProductsInsights _ _); now apply jsonWithCors_cors.
  - destruct (getAllProducts _); now apply jsonWithCors_cors.
  - unfold OPTIONS, optionsPreflight, headersOf. cbn [init init_headers Js.nullish].
    simpl in Hin.
    destruct Hin as [E|[E|[E|[E|[]]]]]; inversion E; subst; reflexivity.
Qed.

End RouteProperties.

Lemma routes_carry_cors_witness :
  let env := Some "production"%string in
  In ("Access-Control-Allow-Origin"%string,
      "http://tukitickets.duckdns.org:8080"%string)
     (CORS_HEADERS env None) /\
  Js.Map_get
    (headersOf (GET_categories caseInsensitiveCompare env None
                  (serves (map toDto mockProducts))))
    "Access-Control-Allow-Origin"
  = Some "http://tukitickets.duckdns.org:8080"%string.
Proof.
  intros env.
  assert (H : In ("Access-Control-Allow-Origin"%string,
                  "http://tukitickets.duckdns.org:8080"%string)
                 (CORS_HEADERS env None)) by (simpl; auto).
  split; [exact H|].
  exact (proj1 (proj2 (proj2
    (routes_carry_cors caseInsensitiveCompare (fun _ => None) (fun _ => NaN)
       env None (serves (map toDto mockProducts)) [] _ _ H)))).
Defined.

(** ** The insights snapshot as a whole *)





(** ** Page parameters of the products route *)

Section RoutePageParameters.

Variable localeCompare : string -> string -> Z.
Variable Number : string -> option Q.
Variable parseInt10 : string -> ParsedInt.
Variables (NODE_ENV ALLOWED_ORIGIN : option string).



End RoutePageParameters.

